(** * snippetsync: the marker-based region engine of [src/Sync.js]

    A shallow embedding of the extraction, splice, clear and formatting
    code of [Sync.js] (and of the TypeScript [Snippet] class kept next to
    it), together with the properties stated about them.

    Conventions.
    - A line of text is a [string]; a file body is a [list string].
      Characters are the code units below 256, so the regular-expression
      class [\s] is tab, LF, VT, FF, CR, space and NBSP, and [.] is every
      character but LF and CR.
    - A JavaScript exception is a value of [error]; a function that may
      throw returns a [result].
    - [Array.prototype.splice] mutates the array the scan is iterating
      over; the scan is therefore modelled on the current array and an
      index, exactly as the array iterator reads it. *)

From Stdlib Require Import String Ascii List Bool Arith Lia PrimFloat.
From stdpp Require Import base tactics option list.
Import ListNotations.
Infix "+:+" := String.append (at level 60, right associativity).
Open Scope string_scope.
Open Scope list_scope.
Open Scope nat_scope.
Set Warnings "-register-all".

(** ** Exceptions *)

Inductive error : Type :=
| TypeError      (* property access on [null] or [undefined] *)
| SyntaxError (payload : string).  (* thrown by [JSON.parse] on [payload] *)

Inductive result (A : Type) : Type :=
| Ok (a : A)
| Throw (e : error)
| OutOfFuel.
Arguments Ok {A} a.
Arguments Throw {A} e.
Arguments OutOfFuel {A}.

Definition rbind {A B} (r : result A) (k : A -> result B) : result B :=
  match r with
  | Ok a => k a
  | Throw e => Throw e
  | OutOfFuel => OutOfFuel
  end.

Notation "'let*' x := r 'in' k" := (rbind r (fun x => k))
  (at level 10, x pattern, r at level 100, k at level 200).

(** ** Strings as JavaScript uses them *)

Fixpoint startsWith (tok s : string) : bool :=
  match tok, s with
  | EmptyString, _ => true
  | String a tok', String b s' => Ascii.eqb a b && startsWith tok' s'
  | String _ _, EmptyString => false
  end.

(** [line.includes(tok)] *)
Fixpoint includes (tok line : string) : bool :=
  startsWith tok line ||
  match line with
  | EmptyString => false
  | String _ rest => includes tok rest
  end.

(** [s.split(sep)] for a one-character separator. *)
Fixpoint split (sep : ascii) (s : string) : list string :=
  match s with
  | EmptyString => [EmptyString]
  | String c rest =>
      if Ascii.eqb c sep then EmptyString :: split sep rest
      else match split sep rest with
           | [] => [String c EmptyString]
           | part :: parts => String c part :: parts
           end
  end.

(** [parts.join(sep)] *)
Fixpoint join (sep : string) (parts : list string) : string :=
  match parts with
  | [] => EmptyString
  | [p] => p
  | p :: rest => p +:+ sep +:+ join sep rest
  end.

(** [arr.slice(1, arr.length)] *)
Definition slice1 {A} (l : list A) : list A := drop 1 l.

(** The class [\s] on code units below 256. *)
Definition is_space (c : ascii) : bool :=
  let n := nat_of_ascii c in
  (n =? 9) || (n =? 10) || (n =? 11) || (n =? 12) || (n =? 13)
  || (n =? 32) || (n =? 160).

Definition non_space (c : ascii) : bool := negb (is_space c).

(** The class [.] (no [s] flag): everything but the line terminators. *)
Definition is_dot (c : ascii) : bool :=
  let n := nat_of_ascii c in negb ((n =? 10) || (n =? 13)).

(** ** A backtracking matcher for the two marker expressions *)

Section Backtracking.
Context {A : Type}.

(** [cls*] followed by the continuation [k]: greedy, longest run first,
    giving characters back one at a time until [k] succeeds.  [taken]
    is what the repetition has consumed so far. *)
Fixpoint star (cls : ascii -> bool) (taken s : string)
         (k : string -> string -> option A) : option A :=
  match s with
  | String c rest =>
      if cls c then
        match star cls (taken +:+ String c EmptyString) rest k with
        | Some r => Some r
        | None => k taken s
        end
      else k taken s
  | EmptyString => k taken s
  end.

(** [cls+]: as [star], but an empty run is not a match. *)
Definition plus (cls : ascii -> bool) (s : string)
           (k : string -> string -> option A) : option A :=
  star cls EmptyString s
       (fun taken rest =>
          match taken with
          | EmptyString => None
          | _ => k taken rest
          end).

(** An expression tried at every start position, leftmost first, after
    the literal [tok]. *)
Fixpoint leftmost (tok : string) (after : string -> option A)
         (line : string) : option A :=
  match (if startsWith tok line
         then after (substring (String.length tok)
                               (String.length line - String.length tok) line)
         else None) with
  | Some r => Some r
  | None =>
      match line with
      | EmptyString => None
      | String _ rest => leftmost tok after rest
      end
  end.
End Backtracking.

(** ** The constants of [./common] *)

Record Common : Type := {
  readStart : string;
  readEnd : string;
  writeStart : string;
  writeStartClose : string;
  writeEnd : string;
  fmtStartCodeBlock : string -> string;
  markdownCodeTicks : string
}.

(** Modelled from the spec: [./common] is not among the sources.  The
    four marker tokens and the closing token are literal strings that are
    pairwise distinct; the opening fence is tagged with the extension and
    the closing fence carries no tag. *)
Definition common : Common := {|
  readStart := "@@@SNIPSTART";
  readEnd := "@@@SNIPEND";
  writeStart := "<!--SNIPSTART";
  writeStartClose := "-->";
  writeEnd := "<!--SNIPEND-->";
  fmtStartCodeBlock := fun ext => "```" +:+ ext;
  markdownCodeTicks := "```"
|}.

(** ** JavaScript values that a configuration can hold *)

Inductive JSValue : Type :=
| JUndefined
| JNull
| JBool (b : bool)
| JNumber (f : float)
| JString (s : string)
| JArray (items : list JSValue)
| JObject (fields : list (string * JSValue)).

(** [ToBoolean] *)
Definition truthy (v : JSValue) : bool :=
  match v with
  | JUndefined | JNull => false
  | JBool b => b
  | JNumber f => negb (PrimFloat.eqb f 0 || PrimFloat.is_nan f)
  | JString s => negb (String.eqb s EmptyString)
  | JArray _ | JObject _ => true
  end.

Fixpoint field (key : string) (fields : list (string * JSValue)) : JSValue :=
  match fields with
  | [] => JUndefined
  | (k, v) :: rest => if String.eqb k key then v else field key rest
  end.

(** [v.enable_source_link]: reading a property of [undefined] or [null]
    throws; a value without the property reads as [undefined]. *)
Definition enable_source_link (v : JSValue) : result JSValue :=
  match v with
  | JUndefined | JNull => Throw TypeError
  | JObject fields => Ok (field "enable_source_link" fields)
  | _ => Ok JUndefined
  end.

(** [a || b] *)
Definition js_or (a b : JSValue) : JSValue := if truthy a then a else b.

(** ** Snippets and the formatter *)

Record FilePath : Type := {
  name : string;
  directory : string
}.

Record Snippet : Type := {
  id : string;
  ext : string;
  owner : string;
  repo : string;
  ref : option string;        (* [None] is [undefined] *)
  filePath : FilePath;
  lines : list string
}.

Definition with_lines (sn : Snippet) (ls : list string) : Snippet :=
  {| id := id sn; ext := ext sn; owner := owner sn; repo := repo sn;
     ref := ref sn; filePath := filePath sn; lines := ls |}.

(** [determineExtension]: the last part of [path.split(".")]. *)
Definition determineExtension (path : string) : string :=
  List.last (split "." path) EmptyString.

Definition buildPath (sn : Snippet) : string :=
  let sourceURLParts := split "/" (directory (filePath sn)) in
  join "/" (slice1 sourceURLParts ++ [name (filePath sn)]).

Definition buildURL (sn : Snippet) : string :=
  let sourceURLParts := split "/" (directory (filePath sn)) in
  let ref :=
    match ref sn with
    | Some r => if negb (String.eqb r EmptyString) then r else "master"
    | None => "master"
    end in
  join "/" (["https://github.com"; owner sn; repo sn; "blob"; ref]
              ++ slice1 sourceURLParts ++ [name (filePath sn)]).

(** The [ref] that [buildURL] puts in the address. *)
Definition refOrMaster (sn : Snippet) : string :=
  match ref sn with
  | Some r => if String.eqb r EmptyString then "master" else r
  | None => "master"
  end.

Definition fmtSourceLink (sn : Snippet) : string :=
  let url := buildURL sn in
  let path := buildPath sn in
  "[" +:+ path +:+ "](" +:+ url +:+ ")".

Section Engine.
Variable C : Common.
(** [JSON.parse] belongs to the platform: [None] is a thrown
    [SyntaxError]. *)
Variable JSON_parse : string -> option JSValue.

(** [Snippet.fmt] of [Sync.js].  The method receives the snippet as
    [this] and hands it back next to the array it built, so that what
    it does to [this.lines] is visible. *)
Definition fmt (this : Snippet) (flag : JSValue)
  : list string * Snippet :=
  let out := [] in
  let out := if truthy flag then out ++ [fmtSourceLink this] else out in
  let out := out ++ [fmtStartCodeBlock C (ext this)] in
  let out := out ++ lines this in
  let out := out ++ [markdownCodeTicks C] in
  (out, this).

(** ** The marker grammar *)

(** [readMatchRegexp]: readStart, [\s+], [(\S+)]. *)
Definition readMatch (line : string) : option string :=
  leftmost (readStart C)
    (fun s => plus is_space s (fun _ s1 =>
              plus non_space s1 (fun id _ => Some id)))
    line.

(** [writeMatchRegexp]: writeStart, [\s+], [(\S+)], [(?:\s+(.+))?],
    [\s*], writeStartClose.  The result is the pair of the two
    capture groups; the second is [None] when the optional group took
    no part in the match. *)
Definition writeMatch (line : string) : option (string * option string) :=
  let close (r : string * option string) :=
    fun (_ s : string) =>
      if startsWith (writeStartClose C) s then Some r else None in
  leftmost (writeStart C)
    (fun s =>
       plus is_space s (fun _ s1 =>
       plus non_space s1 (fun id s2 =>
         match plus is_space s2 (fun _ s3 =>
               plus is_dot s3 (fun payload s4 =>
               star is_space EmptyString s4 (close (id, Some payload))))
         with
         | Some r => Some r
         | None => star is_space EmptyString s2 (close (id, None))
         end)))
    line.

(** [extractReadID]: [matches[1]] of a [null] match throws. *)
Definition extractReadID (line : string) : result string :=
  match readMatch line with
  | Some id => Ok id
  | None => Throw TypeError
  end.

(** [extractWriteIDAndConfig]: the identifier and, when a payload was
    captured, its parse ([JSValue]); no payload gives [undefined]. *)
Definition extractWriteIDAndConfig (line : string)
  : result (string * JSValue) :=
  match writeMatch line with
  | None => Throw TypeError
  | Some (id, None) => Ok (id, JUndefined)
  | Some (id, Some payload) =>
      (* a captured payload is never empty, hence truthy *)
      match JSON_parse payload with
      | Some v => Ok (id, v)
      | None => Throw (SyntaxError payload)
      end
  end.

(** ** The snippet extractor *)

(** The variables the [eachLine] callback of [extractSnippets] closes
    over. *)
Record ExtractState : Type := {
  capture : bool;
  fileSnipsCount : nat;
  fileSnips : list Snippet
}.

Section ExtractFile.
(** What [extractSnippets] knows about the file being read. *)
Variables (owner0 repo0 : string) (ref0 : option string)
          (item : FilePath).

Definition newSnippet (id0 : string) : Snippet :=
  {| id := id0; ext := determineExtension (name item);
     owner := owner0; repo := repo0; ref := ref0;
     filePath := item; lines := [] |}.

(** One call of the callback. *)
Definition extractLine (st : ExtractState) (line : string)
  : result ExtractState :=
  let '(capture1, count1) :=
    if includes (readEnd C) line
    then (false, S (fileSnipsCount st))
    else (capture st, fileSnipsCount st) in
  let* snips1 :=
    (if capture1 then
       match fileSnips st !! count1 with
       | Some sn =>
           Ok (<[count1 := with_lines sn (lines sn ++ [line])]>
                 (fileSnips st))
       | None => Throw TypeError   (* [fileSnips[n]] is [undefined] *)
       end
     else Ok (fileSnips st)) in
  if includes (readStart C) line then
    let* id0 := extractReadID line in
    Ok {| capture := true; fileSnipsCount := count1;
          fileSnips := snips1 ++ [newSnippet id0] |}
  else
    Ok {| capture := capture1; fileSnipsCount := count1;
          fileSnips := snips1 |}.

Fixpoint eachLine (st : ExtractState) (ls : list string)
  : result ExtractState :=
  match ls with
  | [] => Ok st
  | line :: rest => let* st1 := extractLine st line in eachLine st1 rest
  end.

(** The snippets one file contributes. *)
Definition extractFileSnippets (ls : list string)
  : result (list Snippet) :=
  let* st := eachLine {| capture := false; fileSnipsCount := 0;
                         fileSnips := [] |} ls in
  Ok (fileSnips st).
End ExtractFile.

(** ** The clear engine *)

Record File : Type := {
  filename : string;
  fullpath : string;
  flines : list string
}.

Definition set_lines (f : File) (ls : list string) : File :=
  {| filename := filename f; fullpath := fullpath f; flines := ls |}.

(** The loop of [getClearedFile], from the flag [omit] on. *)
Fixpoint clearLoop (omit : bool) (ls : list string) : list string :=
  match ls with
  | [] => []
  | line :: rest =>
      let omit1 := if includes (writeEnd C) line then false else omit in
      let kept := if omit1 then [] else [line] in
      let omit2 := if includes (writeStart C) line then true else omit1 in
      kept ++ clearLoop omit2 rest
  end.

Definition getClearedFile (file : File) : File :=
  set_lines file (clearLoop false (flines file)).

Definition clearSnippets (files : list File) : list File :=
  map getClearedFile files.

(** ** The splice engine *)

(** [lines.splice(start, deleteCount, ...items)] with the clamping of
    a negative count to zero left to the caller's truncated
    subtraction. *)
Definition splice (ls : list string) (start deleteCount : nat)
           (items : list string) : list string :=
  take start ls ++ items ++ drop (start + deleteCount) ls.

(** [spliceFile]: [rmlines - 1] is [end - start - 1], and a negative
    count deletes nothing. *)
Definition spliceFile (start end_ : nat) (snippet : Snippet)
           (ls : list string) (config : JSValue)
  : result (list string) :=
  let rmlines := end_ - start in
  let* flag := enable_source_link config in
  Ok (splice ls start (rmlines - 1) (fst (fmt snippet flag))).

(** The local variables of [getSplicedFile] that live across
    iterations; [staticFile], [dynamicFile] and [file] all name the
    one array [cur]. *)
Record ScanState : Type := {
  cur : list string;
  lookForStop : bool;
  spliceStart : nat;
  config : JSValue
}.

Section Splice.
(** [this.config.features] *)
Variable features : JSValue.

(** The body of the [for] loop at index [idx], whose line is
    [line]; [fileLineNumber] is [idx + 1] throughout. *)
Definition scanLine (snippet : Snippet) (idx : nat) (line : string)
           (st : ScanState) : result ScanState :=
  let fileLineNumber := S idx in
  let* st1 :=
    (if includes (writeStart C) line then
       let* extracted := extractWriteIDAndConfig line in
       if String.eqb (fst extracted) (id snippet) then
         Ok {| cur := cur st; lookForStop := true;
               spliceStart := fileLineNumber;
               config := snd extracted |}
       else Ok st
     else Ok st) in
  if includes (writeEnd C) line && lookForStop st1 then
    let* ls := spliceFile (spliceStart st1) fileLineNumber snippet
                          (cur st1) (js_or (config st1) features) in
    Ok {| cur := ls; lookForStop := false;
          spliceStart := spliceStart st1; config := config st1 |}
  else Ok st1.

(** The [for] loop: the array iterator stops when [idx] reaches the
    current length, and reads the current array. *)
Fixpoint scan (fuel : nat) (snippet : Snippet) (idx : nat)
         (st : ScanState) : result (list string) :=
  match cur st !! idx with
  | None => Ok (cur st)
  | Some line =>
      match fuel with
      | 0 => OutOfFuel
      | S fuel' =>
          let* st1 := scanLine snippet idx line st in
          scan fuel' snippet (S idx) st1
      end
  end.

Definition getSplicedFile (fuel : nat) (snippet : Snippet)
           (file : File) : result File :=
  let* ls := scan fuel snippet 0
                  {| cur := flines file; lookForStop := false;
                     spliceStart := 0; config := JUndefined |} in
  Ok (set_lines file ls).

(** The inner loop of [spliceSnippets]: one snippet over every
    file. *)
Fixpoint spliceFiles (fuel : nat) (snippet : Snippet)
         (files : list File) : result (list File) :=
  match files with
  | [] => Ok []
  | file :: rest =>
      let* file1 := getSplicedFile fuel snippet file in
      let* rest1 := spliceFiles fuel snippet rest in
      Ok (file1 :: rest1)
  end.

Fixpoint spliceSnippets (fuel : nat) (snippets : list Snippet)
         (files : list File) : result (list File) :=
  match snippets with
  | [] => Ok files
  | snippet :: rest =>
      let* files1 := spliceFiles fuel snippet files in
      spliceSnippets fuel rest files1
  end.
End Splice.
End Engine.

(** ** The TypeScript [Snippet] class

    The second source file declares a [Snippet] of its own, whose [fmt]
    works on [this.lines] in place and returns nothing. *)
Module SnippetTs.
Section Fmt.
Variable C : Common.

(** [this.lines.splice(0, 0, x)] and
    [this.lines.splice(this.lines.length, 0, x)] *)
Definition unshift (x : string) (ls : list string) := x :: ls.
Definition push (x : string) (ls : list string) := ls ++ [x].

(** [fmt]: the snippet after the call. *)
Definition fmt (this : Snippet) (flag : JSValue) : Snippet :=
  let this1 :=
    with_lines this (unshift (fmtStartCodeBlock C (ext this)) (lines this)) in
  let this2 :=
    with_lines this1 (push (markdownCodeTicks C) (lines this1)) in
  if truthy flag
  then with_lines this2 (unshift (fmtSourceLink this2) (lines this2))
  else this2.
End Fmt.
End SnippetTs.

(** ** A stand-in for [JSON.parse]

    The theorems below hold for every [JSON_parse].  The worked examples
    need one function to run with; this one reads the three literal
    names, with JSON white space around them, and reports a syntax error
    on any other text.  The examples only hand it texts on which it and
    [JSON.parse] agree. *)

Definition json_ws (c : ascii) : bool :=
  let n := nat_of_ascii c in
  (n =? 9) || (n =? 10) || (n =? 13) || (n =? 32).

Fixpoint skip_ws (s : string) : string :=
  match s with
  | String c rest => if json_ws c then skip_ws rest else s
  | EmptyString => EmptyString
  end.

Definition literal (tok : string) (v : JSValue) (s : string)
  : option JSValue :=
  if startsWith tok s then
    match skip_ws (substring (String.length tok)
                             (String.length s - String.length tok) s) with
    | EmptyString => Some v
    | _ => None
    end
  else None.

Definition JSON_parse_literals (text : string) : option JSValue :=
  let s := skip_ws text in
  match literal "true" (JBool true) s with
  | Some v => Some v
  | None =>
      match literal "false" (JBool false) s with
      | Some v => Some v
      | None => literal "null" JNull s
      end
  end.

(** ** Data of the worked examples *)

Definition ex_path : FilePath :=
  {| name := "main.go"; directory := "samples-go-1a2b3c/helloworld" |}.

(** A snippet as [extractSnippets] builds it for [ex_path]. *)
Definition ex_snippet (id0 : string) (ls : list string) : Snippet :=
  {| id := id0; ext := "go"; owner := "temporalio"; repo := "samples-go";
     ref := None; filePath := ex_path; lines := ls |}.

Definition ex_file (ls : list string) : File :=
  {| filename := "README.md"; fullpath := "/docs/README.md"; flines := ls |}.

(** The global [features] of the examples. *)
Definition ex_features : JSValue :=
  JObject [("enable_source_link", JBool false)].

(** ** Well-formed source files, for the extractor

    A source region is some lines without markers, a read-start line
    that carries an identifier, the captured lines, none of which holds
    a marker, and a read-end line. *)

Definition plain (C : Common) (l : string) : Prop :=
  includes (readStart C) l = false /\ includes (readEnd C) l = false.

Record Region : Type := {
  junk : list string;
  start : string;
  rid : string;
  body : list string;
  endl : string
}.

Definition region_lines (r : Region) : list string :=
  junk r ++ start r :: body r ++ [endl r].

Definition region_ok (C : Common) (r : Region) : Prop :=
  Forall (plain C) (junk r)
  /\ includes (readStart C) (start r) = true
  /\ includes (readEnd C) (start r) = false
  /\ extractReadID C (start r) = Ok (rid r)
  /\ Forall (plain C) (body r)
  /\ includes (readEnd C) (endl r) = true
  /\ includes (readStart C) (endl r) = false.

(** ** Well-formed target files, for the clear engine

    A write block with the lines that stand before it: lines without
    the write-start token, a write-start line, the interior, none of
    whose lines holds the write-end token, and a write-end line that
    is not a write-start line as well. *)

Record WriteBlock : Type := {
  wjunk : list string;
  wstart : string;
  winterior : list string;
  wend : string
}.

Definition block_lines (b : WriteBlock) : list string :=
  wjunk b ++ wstart b :: winterior b ++ [wend b].

(** The same block with its interior emptied. *)
Definition block_cleared (b : WriteBlock) : list string :=
  wjunk b ++ [wstart b; wend b].

Definition block_ok (C : Common) (b : WriteBlock) : Prop :=
  Forall (fun l => includes (writeStart C) l = false) (wjunk b)
  /\ includes (writeStart C) (wstart b) = true
  /\ Forall (fun l => includes (writeEnd C) l = false) (winterior b)
  /\ includes (writeEnd C) (wend b) = true
  /\ includes (writeStart C) (wend b) = false.

(** ** Lines a scan passes over

    A line is [inert] for a snippet when the scan neither throws on it
    nor starts looking for a stop: it holds no write-start token, or its
    write-start parses to another identifier.  It is [quiet] in a state
    when, besides, it does not trigger a splice. *)

Definition inert (C : Common) (JSON_parse : string -> option JSValue)
           (sn : Snippet) (line : string) : Prop :=
  includes (writeStart C) line = true ->
  exists r, extractWriteIDAndConfig C JSON_parse line = Ok r
            /\ String.eqb (fst r) (id sn) = false.

Definition quiet (C : Common) (JSON_parse : string -> option JSValue)
           (sn : Snippet) (st : ScanState) (line : string) : Prop :=
  inert C JSON_parse sn line
  /\ (lookForStop st = true -> includes (writeEnd C) line = false).

(** Marker lines of the examples. *)
Definition ws_a : string := "<!--SNIPSTART a-->".
Definition ws_b : string := "<!--SNIPSTART b-->".
Definition we_ : string := "<!--SNIPEND-->".

(** Every character of [s] is in the class [cls]. *)
Fixpoint all_chars (cls : ascii -> bool) (s : string) : bool :=
  match s with
  | EmptyString => true
  | String c rest => cls c && all_chars cls rest
  end.

(** What [writeMatchRegexp] lets stand between the identifier and the
    closing token, [(?:\s+(.+))?\s*]: white space only, or white space
    and a payload, which is any non-empty text without a line
    terminator (the white space before the closing token is then part
    of it). *)
Definition write_tail (mid : string) : Prop :=
  all_chars is_space mid = true
  \/ exists sp2 payload,
       mid = sp2 +:+ payload
       /\ all_chars is_space sp2 = true /\ sp2 <> EmptyString
       /\ all_chars is_dot payload = true /\ payload <> EmptyString.

(** ** Well-formed target files, for the splice engine

    A write-start line is well formed when it parses and carries no
    write-end token.  [pend] follows the lines of a file and tells
    whether a write-start line is still waiting for its write-end line:
    write regions that do not overlap leave nothing pending. *)

Definition wf_line (C : Common) (JSON_parse : string -> option JSValue)
           (l : string) : Prop :=
  includes (writeStart C) l = true ->
  (exists r, extractWriteIDAndConfig C JSON_parse l = Ok r)
  /\ includes (writeEnd C) l = false.

Fixpoint pend (C : Common) (p : bool) (ls : list string) : bool :=
  match ls with
  | [] => p
  | l :: rest =>
      pend C (if includes (writeEnd C) l then false
              else if includes (writeStart C) l then true else p) rest
  end.

(** The number of write-start lines in [ls]. *)
Fixpoint count_ws (C : Common) (ls : list string) : nat :=
  match ls with
  | [] => 0
  | l :: rest =>
      (if includes (writeStart C) l then 1 else 0) + count_ws C rest
  end.

(** No line of a rendering of [sn] holds a write-start token. *)
Definition clean_render (C : Common) (sn : Snippet) : Prop :=
  forall flag,
    Forall (fun l => includes (writeStart C) l = false) (fst (fmt C sn flag)).

(** [this.config.features] is an object, so that reading a flag of the
    effective configuration does not throw. *)
Definition features_ok (features : JSValue) : Prop :=
  features <> JUndefined /\ features <> JNull.

(** The work a scan has left at index [idx]: the lines ahead, and one
    rendering for each write-start line ahead or pending. *)
Definition measure (C : Common) (sn : Snippet) (idx : nat) (st : ScanState)
  : nat :=
  (length (cur st) - idx)
  + (length (lines sn) + 3)
    * (count_ws C (drop idx (cur st)) + (if lookForStop st then 1 else 0)).

(** The array holds the lines [B] between a closed part [pre] and a
    part [post]; a pending write-start line is closed before [B] or
    lies after it. *)
Definition scan_inv (C : Common) (JSON_parse : string -> option JSValue)
           (B : list string) (idx : nat) (st : ScanState) : Prop :=
  exists pre post,
    cur st = pre ++ B ++ post
    /\ pend C false pre = false
    /\ Forall (wf_line C JSON_parse) (cur st)
    /\ (lookForStop st = true ->
        spliceStart st <= idx
        /\ (existsb (includes (writeEnd C)) (drop idx pre) = true
            \/ length pre + length B < spliceStart st)).

(** A file holds the lines [Bf] after a closed part, and is well
    formed. *)
Definition holds (C : Common) (JSON_parse : string -> option JSValue)
           (Bf : list string) (f : File) : Prop :=
  exists pre post,
    flines f = pre ++ Bf ++ post
    /\ pend C false pre = false
    /\ Forall (wf_line C JSON_parse) (flines f).

Definition same_file (f f' : File) : Prop :=
  filename f' = filename f /\ fullpath f' = fullpath f.

(** ** Writing a file back *)

(** The line feed. *)
Definition nl : ascii := "010"%char.

(** [File.fileString]: the lines joined by line feeds, and one more
    line feed. *)
Definition fileString (f : File) : string :=
  join (String nl EmptyString) (flines f) +:+ String nl EmptyString.

(** ** What the extractor keeps about a snippet

    [opened_by sn l]: the snippet [sn] is the one that the read-start
    line [l] of the file opens: it has the identifier read from [l] and
    the extension, origin and path of the file. *)
Definition opened_by (C : Common) (owner0 repo0 : string)
           (ref0 : option string) (item : FilePath)
           (sn : Snippet) (l : string) : Prop :=
  extractReadID C l = Ok (id sn)
  /\ with_lines sn [] = newSnippet owner0 repo0 ref0 item (id sn).

(** A well-formed region of the examples, and its marker lines. *)
Definition rs_a : string := "// @@@SNIPSTART a".
Definition rs_b : string := "// @@@SNIPSTART b".
Definition re_ : string := "// @@@SNIPEND".

Definition ex_region : Region :=
  {| junk := ["package main"]; start := rs_a; rid := "a";
     body := ["x := 1"]; endl := re_ |}.

(** A second stand-in for [JSON.parse], for the examples with an inline
    payload: besides the three literal names it reads the empty object.
    The examples only hand it texts on which it and [JSON.parse]
    agree. *)
Definition JSON_parse_small (text : string) : option JSValue :=
  match skip_ws text with
  | String "{" rest =>
      match skip_ws rest with
      | String "}" rest' =>
          match skip_ws rest' with
          | EmptyString => Some (JObject [])
          | _ => None
          end
      | _ => None
      end
  | _ => JSON_parse_literals text
  end.

(** Global features that switch the source link on. *)
Definition ex_features_link : JSValue :=
  JObject [("enable_source_link", JBool true)].

(** ** A scan that does not end

    When a snippet quotes a write block of its own name, every splice
    puts a new block under the index.  After [k] rounds the array is
    [k] pairs of a write-start line and an opening fence, the quoted
    block, and [k] pairs of a closing fence and a write-end line. *)
Fixpoint heads (ws fence : string) (k : nat) : list string :=
  match k with
  | 0 => []
  | S k' => heads ws fence k' ++ [ws; fence]
  end.

Fixpoint tails (ticks we : string) (k : nat) : list string :=
  match k with
  | 0 => []
  | S k' => ticks :: we :: tails ticks we k'
  end.

(** ** Where a token occurs, and where a run of characters ends *)

(** [line.indexOf(tok)] *)
Fixpoint indexOf (tok line : string) : option nat :=
  if startsWith tok line then Some 0
  else match line with
       | EmptyString => None
       | String _ rest => option_map S (indexOf tok rest)
       end.

(** [s] is empty or starts with a character outside [cls]: a run of
    [cls] characters before [s] cannot be made longer. *)
Definition stops (cls : ascii -> bool) (s : string) : bool :=
  match s with
  | EmptyString => true
  | String c _ => negb (cls c)
  end.

(** ** [escapeStringRegexp] *)

(** The class of the first [replace]: the syntax characters of a
    regular expression. *)
Definition is_syntax_char (c : ascii) : bool :=
  existsb (Ascii.eqb c) (list_ascii_of_string "|\{}()[]^$+*?.").

(** [.replace(/[|\\{}()[\]^$+*?.]/g, '\\$&')]: a backslash before each
    syntax character. *)
Fixpoint escape_syntax (s : string) : string :=
  match s with
  | EmptyString => EmptyString
  | String c rest =>
      if is_syntax_char c
      then String "\" (String c (escape_syntax rest))
      else String c (escape_syntax rest)
  end.

(** [.replace(/-/g, '\\x2d')] *)
Fixpoint escape_hyphen (s : string) : string :=
  match s with
  | EmptyString => EmptyString
  | String c rest =>
      if Ascii.eqb c "-"
      then "\x2d" +:+ escape_hyphen rest
      else String c (escape_hyphen rest)
  end.

Definition escapeStringRegexp (s : string) : string :=
  escape_hyphen (escape_syntax s).

(** How [RegExp] reads a pattern made of plain characters, escaped
    syntax characters and two-digit hexadecimal escapes: the one string
    the pattern matches, or [None] when the pattern holds anything
    else.  This is the platform's reading of the text that
    [escapeStringRegexp] produces. *)
Definition hex_digit (c : ascii) : option nat :=
  let n := nat_of_ascii c in
  if (48 <=? n) && (n <=? 57) then Some (n - 48)
  else if (97 <=? n) && (n <=? 102) then Some (n - 87)
  else if (65 <=? n) && (n <=? 70) then Some (n - 55)
  else None.

Fixpoint literal_of_pattern (p : string) : option string :=
  match p with
  | EmptyString => Some EmptyString
  | String c r =>
      if Ascii.eqb c "\" then
        match r with
        | EmptyString => None
        | String d r' =>
            if Ascii.eqb d "x" then
              match r' with
              | String h1 (String h2 r'') =>
                  match hex_digit h1, hex_digit h2 with
                  | Some a, Some b =>
                      option_map (String (ascii_of_nat (16 * a + b)))
                                 (literal_of_pattern r'')
                  | _, _ => None
                  end
              | _ => None
              end
            else if is_syntax_char d
                 then option_map (String d) (literal_of_pattern r')
                 else None
        end
      else if is_syntax_char c then None
           else option_map (String c) (literal_of_pattern r)
  end.

(** ** One repository, from its files to the target files

    [extractSnippets] for one repository: its files are read in order
    and the snippets of each are appended; [ls] stands for the lines
    that reading the file at [item] gives. *)
Fixpoint extractRepo (C : Common) (owner0 repo0 : string)
         (ref0 : option string) (files : list (FilePath * list string))
  : result (list Snippet) :=
  match files with
  | [] => Ok []
  | (item, ls) :: rest =>
      let* fileSnips := extractFileSnippets C owner0 repo0 ref0 item ls in
      let* more := extractRepo C owner0 repo0 ref0 rest in
      Ok (fileSnips ++ more)
  end.

(** The part of [run] between the download and the writing of the
    files, for one repository: extract, then splice. *)
Definition runCore (C : Common) (JSON_parse : string -> option JSValue)
           (features : JSValue) (fuel : nat) (owner0 repo0 : string)
           (ref0 : option string) (files : list (FilePath * list string))
           (targets : list File) : result (list File) :=
  let* snippets := extractRepo C owner0 repo0 ref0 files in
  spliceSnippets C JSON_parse features fuel snippets targets.

(** ** Helper lemmas on strings and lists *)

Lemma split_not_nil sep s : split sep s <> [].
Proof.
  destruct s as [|c s]; simpl; [done|].
  destruct (Ascii.eqb c sep); [done|]. destruct (split sep s); done.
Qed.

Lemma split_app_sep sep a b :
  split sep (a +:+ String sep b) = split sep a ++ split sep b.
Proof.
  induction a as [|c a IH]; simpl.
  - by rewrite Ascii.eqb_refl.
  - destruct (Ascii.eqb c sep); [by rewrite IH|].
    rewrite IH. pose proof (split_not_nil sep a).
    destruct (split sep a); done.
Qed.

Lemma split_no_sep sep s :
  includes (String sep EmptyString) s = false -> split sep s = [s].
Proof.
  induction s as [|c s IH]; simpl; [done|].
  intros H. apply orb_false_elim in H as [H1 H2].
  rewrite andb_true_r in H1. rewrite Ascii.eqb_sym, H1.
  by rewrite (IH H2).
Qed.

Lemma last_app_cons {A} (l : list A) x l' d :
  List.last (l ++ x :: l') d = List.last (x :: l') d.
Proof.
  induction l as [|y l IH]; [done|]. simpl.
  destruct (l ++ x :: l') eqn:E; [by destruct l|]. exact IH.
Qed.

Lemma determineExtension_dot stem e :
  includes "." e = false ->
  determineExtension (stem +:+ "." +:+ e) = e.
Proof.
  intros H. unfold determineExtension.
  change ("." +:+ e) with (String "."%char e).
  rewrite split_app_sep, (split_no_sep _ _ H). by rewrite last_app_cons.
Qed.

Lemma append_assoc (a b c : string) : (a +:+ b) +:+ c = a +:+ (b +:+ c).
Proof. induction a as [|x a IH]; simpl; [done|]. by rewrite IH. Qed.

Lemma join_app sep l x l' :
  l <> [] ->
  join sep (l ++ x :: l') = join sep l +:+ sep +:+ join sep (x :: l').
Proof.
  induction l as [|p l IH]; [done|]. intros _.
  destruct l as [|q l]; [done|].
  change ((p :: q :: l) ++ x :: l') with (p :: q :: (l ++ x :: l')).
  change (join sep (p :: q :: l ++ x :: l'))
    with (p +:+ sep +:+ join sep ((q :: l) ++ x :: l')).
  rewrite IH by done.
  change (join sep (p :: q :: l)) with (p +:+ sep +:+ join sep (q :: l)).
  by rewrite !append_assoc.
Qed.

Lemma join5 sep a b c d e :
  join sep [a; b; c; d; e]
  = a +:+ sep +:+ b +:+ sep +:+ c +:+ sep +:+ d +:+ sep +:+ e.
Proof. reflexivity. Qed.

Lemma buildURL_eq sn :
  buildURL sn
  = "https://github.com/" +:+ owner sn +:+ "/" +:+ repo sn +:+ "/blob/"
      +:+ refOrMaster sn +:+ "/" +:+ buildPath sn.
Proof.
  unfold buildURL, buildPath.
  set (parts := slice1 _ ++ _).
  assert (Hp : exists x l, parts = x :: l).
  { unfold parts. destruct (slice1 _); simpl; eauto. }
  destruct Hp as (x & l & ->).
  rewrite join_app by done. rewrite join5, !append_assoc.
  unfold refOrMaster.
  destruct (ref sn) as [r|]; [destruct (String.eqb r EmptyString)|];
    reflexivity.
Qed.

(** ** The formatter *)

(** C7: for every snippet and flag (the [enable_source_link] of the
    effective configuration), the rendering is, in order: the
    source link when the flag is truthy (label: the directory segments
    after the first joined with the file name; address: the GitHub blob
    address of that path at the snippet's ref, or at master when the
    ref is empty or undefined), the opening fence for the snippet's
    extension, the captured lines as they are, and the closing fence;
    the extension of an extracted snippet is the text after the last
    dot of the file name; and this rendering is what [spliceFile]
    inserts. *)
Theorem C7_fmt_rendering (C : Common) (sn : Snippet) (flag : JSValue) :
  let label :=
    join "/" (drop 1 (split "/" (directory (filePath sn)))
                ++ [name (filePath sn)]) in
  let url :=
    "https://github.com/" +:+ owner sn +:+ "/" +:+ repo sn +:+ "/blob/"
      +:+ refOrMaster sn +:+ "/" +:+ label in
  fst (fmt C sn flag)
  = (if truthy flag then ["[" +:+ label +:+ "](" +:+ url +:+ ")"] else [])
      ++ [fmtStartCodeBlock C (ext sn)] ++ lines sn ++ [markdownCodeTicks C]
  /\ (ref sn = None \/ ref sn = Some EmptyString ->
      refOrMaster sn = "master")
  /\ (forall r, ref sn = Some r -> r <> EmptyString -> refOrMaster sn = r)
  /\ (forall owner0 repo0 ref0 item id0 stem e,
         name item = stem +:+ "." +:+ e ->
         includes "." e = false ->
         ext (newSnippet owner0 repo0 ref0 item id0) = e)
  /\ (forall start end_ ls config,
         enable_source_link config = Ok flag ->
         spliceFile C start end_ sn ls config
         = Ok (splice ls start (end_ - start - 1) (fst (fmt C sn flag)))).
Proof.
  intros label url. split; [|split; [|split; [|split]]].
  - unfold fmt. simpl fst.
    destruct (truthy flag); simpl; rewrite <- ?app_assoc; simpl; [|done].
    f_equal. unfold fmtSourceLink. rewrite buildURL_eq. reflexivity.
  - unfold refOrMaster. by intros [->| ->].
  - unfold refOrMaster. intros r -> Hr.
    apply String.eqb_neq in Hr. by rewrite Hr.
  - intros owner0 repo0 ref0 item id0 stem e Hname Hdot. simpl.
    rewrite Hname. by apply determineExtension_dot.
  - intros start end_ ls config Hflag. unfold spliceFile. by rewrite Hflag.
Qed.

Lemma C7_fmt_rendering_witness :
  fst (fmt common (ex_snippet "a" ["x := 1"]) (JBool true))
  = ["[helloworld/main.go](https://github.com/temporalio/samples-go/blob/master/helloworld/main.go)";
     "```go"; "x := 1"; "```"]
  /\ ext (newSnippet "temporalio" "samples-go" None ex_path "a") = "go".
Proof.
  destruct (C7_fmt_rendering common (ex_snippet "a" ["x := 1"]) (JBool true))
    as (Hfmt & _ & _ & Hext & _).
  split; [exact Hfmt|].
  exact (Hext "temporalio" "samples-go" None ex_path "a" "main" "go"
              eq_refl eq_refl).
Defined.

(** C9: [fmt] of [Sync.js] hands the snippet back as it received it,
    for every flag; [fmt] of the TypeScript class leaves a snippet whose
    stored lines differ from the ones it was called with. *)
Theorem C9_fmt_lines_after_call (C : Common) (sn : Snippet) (flag : JSValue) :
  snd (fmt C sn flag) = sn
  /\ lines (SnippetTs.fmt C sn flag) <> lines sn.
Proof.
  split; [reflexivity|].
  intros H. apply (f_equal length) in H. revert H.
  unfold SnippetTs.fmt, SnippetTs.unshift, SnippetTs.push.
  destruct (truthy flag); simpl; rewrite ?length_app; simpl; lia.
Qed.

(** ** The clear engine *)

Section Clear.
Variable C : Common.
Abbreviation hasWS := (includes (writeStart C)).
Abbreviation hasWE := (includes (writeEnd C)).

Lemma clearLoop_idem omit ls :
  clearLoop C omit (clearLoop C omit ls) = clearLoop C omit ls.
Proof.
  revert omit. induction ls as [|line rest IH]; intros omit; [done|].
  simpl. destruct (hasWE line) eqn:HE.
  - simpl. rewrite HE. simpl. by rewrite IH.
  - destruct omit; simpl.
    + destruct (hasWS line); apply IH.
    + rewrite HE. simpl. by rewrite IH.
Qed.

Lemma clearLoop_no_start ls :
  Forall (fun l => hasWS l = false) ls -> clearLoop C false ls = ls.
Proof.
  induction 1 as [|line rest Hl _ IH]; [done|].
  simpl. rewrite Hl. destruct (hasWE line); simpl; by rewrite IH.
Qed.

Lemma clearLoop_no_end ls :
  Forall (fun l => hasWE l = false) ls -> clearLoop C true ls = [].
Proof.
  induction 1 as [|line rest Hl _ IH]; [done|].
  simpl. rewrite Hl. simpl. by destruct (hasWS line).
Qed.

Lemma clearLoop_app_no_start ls rest :
  Forall (fun l => hasWS l = false) ls ->
  clearLoop C false (ls ++ rest) = ls ++ clearLoop C false rest.
Proof.
  induction 1 as [|line ls' Hl _ IH]; [done|].
  simpl. rewrite Hl. destruct (hasWE line); simpl; by rewrite IH.
Qed.

Lemma clearLoop_app_no_end ls rest :
  Forall (fun l => hasWE l = false) ls ->
  clearLoop C true (ls ++ rest) = clearLoop C true rest.
Proof.
  induction 1 as [|line ls' Hl _ IH]; [done|].
  simpl. rewrite Hl. simpl. by destruct (hasWS line).
Qed.

Lemma clearLoop_true_head ls y b :
  clearLoop C true ls = y :: b -> hasWE y = true.
Proof.
  induction ls as [|line rest IH]; [done|].
  simpl. destruct (hasWE line) eqn:HE; simpl.
  - by intros [= <- _].
  - by destruct (hasWS line).
Qed.

(** In a cleared body the line after a write-start line is a
    write-end line. *)
Lemma clearLoop_adjacent omit ls a x y b :
  clearLoop C omit ls = a ++ x :: y :: b ->
  hasWS x = true -> hasWE y = true.
Proof.
  revert omit a. induction ls as [|line rest IH]; intros omit a.
  - simpl. by destruct a.
  - simpl. intros Heq Hx.
    destruct (if hasWE line then false else omit) eqn:Ho1.
    + simpl in Heq. destruct (hasWS line); eauto.
    + simpl in Heq. destruct a as [|a0 a].
      * simpl in Heq. injection Heq as -> Hrest. rewrite Hx in Hrest.
        by apply (clearLoop_true_head _ _ _ Hrest).
      * simpl in Heq. injection Heq as -> Hrest. eauto.
Qed.
(** One block, whatever follows it. *)
Lemma clearLoop_block b rest :
  block_ok C b ->
  clearLoop C false (block_lines b ++ rest)
  = block_cleared b ++ clearLoop C false rest.
Proof.
  intros (Hj & Hs & Hi & He & He'). unfold block_lines, block_cleared.
  rewrite <- !app_assoc. rewrite clearLoop_app_no_start by done.
  f_equal. simpl. rewrite Hs.
  replace (if hasWE (wstart b) then false else false)
    with false by (by destruct (hasWE (wstart b))).
  simpl. f_equal. rewrite <- app_assoc.
  rewrite clearLoop_app_no_end by done.
  simpl. by rewrite He, He'.
Qed.

Lemma clearLoop_blocks bs tail :
  Forall (block_ok C) bs ->
  clearLoop C false (concat (map block_lines bs) ++ tail)
  = concat (map block_cleared bs) ++ clearLoop C false tail.
Proof.
  induction 1 as [|b bs Hb _ IH]; [done|].
  simpl. rewrite <- !app_assoc.
  by rewrite (clearLoop_block b _ Hb), IH.
Qed.
End Clear.

(** C5 (amended): for every file, in the cleared file each write-start
    line is directly followed by a write-end line (or ends the file),
    clearing twice is clearing once, and name and path are kept; for a
    file that begins with well-formed write blocks, each with the lines
    that stand before it, the cleared file keeps those lines and the
    two marker lines of each block, drops every line between the
    markers, whatever it is, and goes on in the same way on what
    follows the blocks, which is unchanged when it holds no write-start
    line.  No snippet and no identifier is read. *)
Theorem C5_clear_correct (C : Common) (file : File) :
  (forall a x y b,
      flines (getClearedFile C file) = a ++ x :: y :: b ->
      includes (writeStart C) x = true -> includes (writeEnd C) y = true)
  /\ getClearedFile C (getClearedFile C file) = getClearedFile C file
  /\ filename (getClearedFile C file) = filename file
  /\ fullpath (getClearedFile C file) = fullpath file
  /\ (forall bs tail,
        Forall (block_ok C) bs ->
        flines file = concat (map block_lines bs) ++ tail ->
        flines (getClearedFile C file)
          = concat (map block_cleared bs)
              ++ flines (getClearedFile C (set_lines file tail))
        /\ (Forall (fun l => includes (writeStart C) l = false) tail ->
            flines (getClearedFile C file)
            = concat (map block_cleared bs) ++ tail)).
Proof.
  split; [|split; [|split; [|split]]]; try done.
  - intros a x y b. simpl. apply clearLoop_adjacent.
  - unfold getClearedFile, set_lines. simpl. by rewrite clearLoop_idem.
  - intros bs tail Hbs Hf.
    assert (Hmain : clearLoop C false (flines file)
                    = concat (map block_cleared bs)
                        ++ clearLoop C false tail)
      by (by rewrite Hf, clearLoop_blocks).
    split; [exact Hmain|].
    intros Htail. simpl. by rewrite Hmain, clearLoop_no_start.
Qed.

Lemma C5_clear_correct_witness :
  flines (getClearedFile common
            (ex_file ["intro"; ws_a; "```go"; "x := 1"; "```"; we_;
                      "between"; ws_b; we_; "outro"]))
  = ["intro"; ws_a; we_; "between"; ws_b; we_; "outro"].
Proof.
  refine (proj2
            (proj2 (proj2 (proj2 (proj2
               (C5_clear_correct common
                  (ex_file ["intro"; ws_a; "```go"; "x := 1"; "```"; we_;
                            "between"; ws_b; we_; "outro"])))))
               [ {| wjunk := ["intro"]; wstart := ws_a;
                    winterior := ["```go"; "x := 1"; "```"]; wend := we_ |};
                 {| wjunk := ["between"]; wstart := ws_b;
                    winterior := []; wend := we_ |} ]
               ["outro"] _ _) _).
  - repeat (apply List.Forall_cons;
            [by repeat split; repeat constructor|]).
    apply List.Forall_nil.
  - reflexivity.
  - by repeat constructor.
Defined.

(** A write-start line that no write-end line follows: the three lines
    after it stand in no write block, and clearing drops them. *)
Lemma C5_counterexample :
  let ls := ["intro"; ws_a; "old 1"; "old 2"; "outro"] in
  existsb (includes (writeEnd common)) ls = false
  /\ flines (getClearedFile common (ex_file ls)) = ["intro"; ws_a]
  /\ flines (getClearedFile common (ex_file ls)) <> ls.
Proof. vm_compute. repeat split; try reflexivity; discriminate. Qed.

(** ** The snippet extractor *)

Section Extract.
Variable C : Common.
Variables (owner0 repo0 : string) (ref0 : option string) (item : FilePath).
Abbreviation hasRS := (includes (readStart C)).
Abbreviation hasRE := (includes (readEnd C)).
Abbreviation step := (extractLine C owner0 repo0 ref0 item).
Abbreviation run := (eachLine C owner0 repo0 ref0 item).

Abbreviation plain := (plain C).

Lemma eachLine_app st ls1 ls2 st1 :
  run st ls1 = Ok st1 -> run st (ls1 ++ ls2) = run st1 ls2.
Proof.
  revert st. induction ls1 as [|l ls1 IH]; intros st; simpl.
  - by intros [= ->].
  - destruct (step st l) as [st'| |]; simpl; [apply IH|done|done].
Qed.

Lemma eachLine_idle st junk :
  capture st = false -> Forall plain junk -> run st junk = Ok st.
Proof.
  intros Hc. induction 1 as [|l junk [Hs He] _ IH]; [done|].
  simpl. unfold extractLine. rewrite He, Hs, Hc. simpl.
  destruct st; simpl in *; subst. exact IH.
Qed.

Lemma eachLine_capturing n snips sn body :
  n = length snips -> Forall plain body ->
  run {| capture := true; fileSnipsCount := n; fileSnips := snips ++ [sn] |} body
  = Ok {| capture := true; fileSnipsCount := n;
          fileSnips := snips ++ [with_lines sn (lines sn ++ body)] |}.
Proof.
  intros -> Hb. revert sn. induction Hb as [|l body [Hs He] _ IH]; intros sn.
  - simpl. rewrite app_nil_r. by destruct sn.
  - simpl. unfold extractLine. rewrite He, Hs. simpl.
    rewrite list_lookup_middle by done. simpl.
    rewrite insert_app_r_alt by lia. rewrite Nat.sub_diag. simpl.
    rewrite IH. simpl. by rewrite <- app_assoc.
Qed.

Lemma extract_pair st junk start id0 body endl :
  capture st = false ->
  fileSnipsCount st = length (fileSnips st) ->
  Forall plain junk ->
  hasRS start = true -> hasRE start = false ->
  extractReadID C start = Ok id0 ->
  Forall plain body ->
  hasRE endl = true -> hasRS endl = false ->
  run st (junk ++ start :: body ++ [endl])
  = Ok {| capture := false;
          fileSnipsCount := S (length (fileSnips st));
          fileSnips := fileSnips st
                         ++ [with_lines (newSnippet owner0 repo0 ref0 item id0) body] |}.
Proof.
  intros Hc Hn Hjunk Hs Hs' Hid Hbody He He'.
  rewrite (eachLine_app _ _ _ _ (eachLine_idle st junk Hc Hjunk)).
  simpl. unfold extractLine at 1. rewrite Hs', Hs, Hc, Hid. simpl.
  rewrite (eachLine_app _ _ _ _ (eachLine_capturing _ _ _ body Hn Hbody)).
  simpl. unfold extractLine. rewrite He, He'. simpl. by rewrite Hn.
Qed.

Lemma extract_regions_from st rs tail :
  capture st = false ->
  fileSnipsCount st = length (fileSnips st) ->
  Forall (region_ok C) rs -> Forall plain tail ->
  run st (concat (map region_lines rs) ++ tail)
  = Ok {| capture := false;
          fileSnipsCount := length (fileSnips st) + length rs;
          fileSnips :=
            fileSnips st
              ++ map (fun r => with_lines
                                 (newSnippet owner0 repo0 ref0 item (rid r))
                                 (body r)) rs |}.
Proof.
  intros Hc Hn Hrs Htail. revert st Hc Hn.
  induction Hrs as [|r rs (Hj & Hs & Hs' & Hid & Hb & He & He') _ IH];
    intros st Hc Hn.
  - simpl. rewrite (eachLine_idle st tail Hc Htail).
    rewrite app_nil_r, Nat.add_0_r. destruct st; simpl in *. by subst.
  - simpl. rewrite <- app_assoc.
    rewrite (eachLine_app _ _ _ _
               (extract_pair st _ _ _ _ _ Hc Hn Hj Hs Hs' Hid Hb He He')).
    rewrite IH; simpl; rewrite ?length_app; simpl; [|done|lia].
    rewrite <- app_assoc. simpl. do 2 f_equal. lia.
Qed.

(** X9: on a file made of well-formed regions the extractor returns one
    snippet per region, in order, each with the identifier of its
    read-start line and exactly the lines between the two markers. *)
Lemma extract_regions rs tail :
  Forall (region_ok C) rs -> Forall plain tail ->
  extractFileSnippets C owner0 repo0 ref0 item
                      (concat (map region_lines rs) ++ tail)
  = Ok (map (fun r => with_lines
                        (newSnippet owner0 repo0 ref0 item (rid r))
                        (body r)) rs).
Proof.
  intros Hrs Htail. unfold extractFileSnippets.
  by rewrite (extract_regions_from
                {| capture := false; fileSnipsCount := 0; fileSnips := [] |}
                rs tail eq_refl eq_refl Hrs Htail).
Qed.
End Extract.

(** C6: a source file with a read-end line before its one
    read-start/read-end pair.  The extractor does not return the
    snippet of the pair: it throws on the first captured line. *)
Theorem C6_extract_stray_read_end :
  extractFileSnippets common "temporalio" "samples-go" None ex_path
    ["// @@@SNIPEND"; "// @@@SNIPSTART a"; "x := 1"; "// @@@SNIPEND"]
  = Throw TypeError.
Proof. vm_compute. reflexivity. Qed.

(** ** The scan of [getSplicedFile] *)

Section Scan.
Variable C : Common.
Variable JSON_parse : string -> option JSValue.
Variable features : JSValue.
Abbreviation hasWS := (includes (writeStart C)).
Abbreviation hasWE := (includes (writeEnd C)).
Abbreviation scan' := (scan C JSON_parse features).
Abbreviation scanLine' := (scanLine C JSON_parse features).

Lemma scan_step fuel sn idx st line :
  cur st !! idx = Some line ->
  scan' (S fuel) sn idx st
  = rbind (scanLine' sn idx line st) (scan' fuel sn (S idx)).
Proof. intros H. simpl. by rewrite H. Qed.

Lemma scan_done fuel sn idx st :
  cur st !! idx = None -> scan' fuel sn idx st = Ok (cur st).
Proof. intros H. destruct fuel; simpl; by rewrite H. Qed.

Lemma scanLine_quiet sn idx line st :
  quiet C JSON_parse sn st line -> scanLine' sn idx line st = Ok st.
Proof.
  intros [Hin Hq]. unfold scanLine.
  destruct (hasWS line) eqn:HS.
  - destruct (Hin HS) as (r & -> & Hr). simpl. rewrite Hr. simpl.
    destruct (lookForStop st) eqn:HL; [|by rewrite andb_false_r].
    by rewrite (Hq eq_refl).
  - simpl. destruct (lookForStop st) eqn:HL; [|by rewrite andb_false_r].
    by rewrite (Hq eq_refl).
Qed.

(** A run of quiet lines is passed over, one unit of fuel a line. *)
Lemma scan_skip fuel sn st a seg b :
  cur st = a ++ seg ++ b ->
  Forall (quiet C JSON_parse sn st) seg ->
  scan' (fuel + length seg) sn (length a) st
  = scan' fuel sn (length a + length seg) st.
Proof.
  intros Hcur Hseg. revert a Hcur.
  induction Hseg as [|l seg Hl _ IH]; intros a Hcur.
  - simpl. by rewrite !Nat.add_0_r.
  - simpl length. rewrite Nat.add_succ_r.
    rewrite (scan_step _ _ _ _ l)
      by (rewrite Hcur; apply list_lookup_middle; done).
    rewrite (scanLine_quiet _ _ _ _ Hl). simpl.
    specialize (IH (a ++ [l])). rewrite length_app in IH. simpl in IH.
    rewrite Nat.add_1_r in IH. rewrite IH.
    + f_equal. lia.
    + by rewrite Hcur, <- app_assoc.
Qed.

(** With nothing pending and only inert lines ahead the scan returns
    the array as it is. *)
Lemma scan_tail fuel sn st a seg :
  cur st = a ++ seg ->
  lookForStop st = false ->
  Forall (inert C JSON_parse sn) seg ->
  length seg <= fuel ->
  scan' fuel sn (length a) st = Ok (cur st).
Proof.
  intros Hcur HL Hseg Hfuel.
  replace fuel with ((fuel - length seg) + length seg) by lia.
  rewrite (scan_skip _ _ _ a seg []).
  - apply scan_done. apply lookup_ge_None_2.
    rewrite Hcur, length_app. lia.
  - by rewrite app_nil_r.
  - eapply Forall_impl; [exact Hseg|]. intros l Hl. split; [done|].
    by rewrite HL.
Qed.

Lemma scan_tail_drop fuel sn st idx :
  lookForStop st = false ->
  Forall (inert C JSON_parse sn) (drop idx (cur st)) ->
  length (cur st) - idx <= fuel ->
  scan' fuel sn idx st = Ok (cur st).
Proof.
  intros HL Hin Hfuel.
  destruct (le_lt_dec idx (length (cur st))) as [Hle|Hgt].
  - replace idx with (length (take idx (cur st))) at 1
      by (rewrite length_take; lia).
    eapply scan_tail; [symmetry; apply take_drop|done|exact Hin|].
    rewrite length_drop. lia.
  - apply scan_done. apply lookup_ge_None_2. lia.
Qed.

Lemma scanLine_start sn idx line st cfg :
  hasWS line = true -> hasWE line = false ->
  extractWriteIDAndConfig C JSON_parse line = Ok (id sn, cfg) ->
  scanLine' sn idx line st
  = Ok {| cur := cur st; lookForStop := true; spliceStart := S idx;
          config := cfg |}.
Proof.
  intros HS HE Hx. unfold scanLine. rewrite HS, Hx. simpl.
  rewrite String.eqb_refl. simpl. by rewrite HE.
Qed.

Lemma scanLine_stop sn idx line st flag :
  inert C JSON_parse sn line -> hasWE line = true ->
  lookForStop st = true ->
  enable_source_link (js_or (config st) features) = Ok flag ->
  scanLine' sn idx line st
  = Ok {| cur := splice (cur st) (spliceStart st) (S idx - spliceStart st - 1)
                        (fst (fmt C sn flag));
          lookForStop := false; spliceStart := spliceStart st;
          config := config st |}.
Proof.
  intros Hin HE HL Hflag. unfold scanLine.
  assert (Hst1 : (if hasWS line
            then rbind (extractWriteIDAndConfig C JSON_parse line) (fun extracted =>
              if String.eqb (fst extracted) (id sn)
              then Ok {| cur := cur st; lookForStop := true;
                         spliceStart := S idx; config := snd extracted |}
              else Ok st)
            else Ok st) = Ok st).
  { destruct (hasWS line) eqn:HS; [|done].
    destruct (Hin HS) as (r & -> & Hr). simpl. by rewrite Hr. }
  rewrite Hst1. simpl. rewrite HE, HL. simpl.
  unfold spliceFile. rewrite Hflag. reflexivity.
Qed.

Lemma splice_block (pre interior post : list string) ws we r :
  splice (pre ++ ws :: interior ++ we :: post) (S (length pre))
         (length interior) r
  = pre ++ ws :: r ++ we :: post.
Proof.
  unfold splice.
  replace (pre ++ ws :: interior ++ we :: post)
    with ((pre ++ [ws]) ++ interior ++ we :: post)
    by (by rewrite <- app_assoc).
  replace (S (length pre)) with (length (pre ++ [ws]))
    by (rewrite length_app; simpl; lia).
  rewrite take_app_length.
  rewrite drop_app_add, drop_app_length.
  by rewrite <- app_assoc.
Qed.

Lemma getSplicedFile_block fuel sn file pre ws interior we post cfg flag :
  flines file = pre ++ ws :: interior ++ we :: post ->
  Forall (inert C JSON_parse sn) pre ->
  hasWS ws = true -> hasWE ws = false ->
  extractWriteIDAndConfig C JSON_parse ws = Ok (id sn, cfg) ->
  Forall (fun l => inert C JSON_parse sn l /\ hasWE l = false) interior ->
  hasWE we = true -> inert C JSON_parse sn we ->
  Forall (inert C JSON_parse sn) post ->
  enable_source_link (js_or cfg features) = Ok flag ->
  Forall (inert C JSON_parse sn) (fst (fmt C sn flag)) ->
  length pre + length interior + length (fst (fmt C sn flag))
    + length post + 2 <= fuel ->
  getSplicedFile C JSON_parse features fuel sn file
  = Ok (set_lines file (pre ++ ws :: fst (fmt C sn flag) ++ we :: post)).
Proof.
  intros Hf Hpre HS HE Hx Hint HwE Hwe Hpost Hflag Hr Hfuel.
  set (r := fst (fmt C sn flag)) in *.
  unfold getSplicedFile.
  set (st0 := {| cur := flines file; lookForStop := false;
                 spliceStart := 0; config := JUndefined |}).
  set (st1 := {| cur := flines file; lookForStop := true;
                 spliceStart := S (length pre); config := cfg |}).
  assert (Hscan : scan' fuel sn 0 st0
                  = Ok (pre ++ ws :: r ++ we :: post)); [|by rewrite Hscan].
  (* the lines before the block *)
  replace fuel with ((fuel - length pre) + length pre) by lia.
  rewrite (scan_skip _ sn st0 [] pre
             (ws :: interior ++ we :: post)); [|done|].
  2:{ eapply Forall_impl; [exact Hpre|]. by intros l Hl. }
  (* the write-start line *)
  change (length (@nil string) + length pre) with (length pre).
  replace (fuel - length pre) with (S (fuel - length pre - 1)) by lia.
  rewrite (scan_step _ _ _ _ ws)
    by (simpl; rewrite Hf; by apply (list_lookup_middle pre)).
  rewrite (scanLine_start sn _ ws st0 cfg HS HE Hx). simpl rbind.
  fold st1.
  (* the interior *)
  replace (fuel - length pre - 1)
    with ((fuel - length pre - 1 - length interior) + length interior) by lia.
  replace (S (length pre)) with (length (pre ++ [ws])) at 1
    by (rewrite length_app; simpl; lia).
  rewrite (scan_skip _ sn st1 (pre ++ [ws]) interior
             (we :: post)).
  2:{ simpl. rewrite Hf. by rewrite <- app_assoc. }
  2:{ eapply Forall_impl; [exact Hint|]. intros l [Hl1 Hl2]. by split. }
  (* the write-end line *)
  replace (fuel - length pre - 1 - length interior)
    with (S (fuel - length pre - 2 - length interior)) by lia.
  rewrite (scan_step _ _ _ _ we).
  2:{ simpl. rewrite Hf.
      replace (pre ++ ws :: interior ++ we :: post)
        with (((pre ++ [ws]) ++ interior) ++ we :: post)
        by (by rewrite <- !app_assoc).
      rewrite <- length_app. by apply list_lookup_middle. }
  rewrite (scanLine_stop sn _ we st1 flag Hwe HwE eq_refl Hflag).
  cbn [rbind]. unfold st1 at 1 2 3 4. cbn [cur spliceStart config]. fold r.
  replace (S (length (pre ++ [ws]) + length interior) - S (length pre) - 1)
    with (length interior) by (rewrite length_app; simpl; lia).
  rewrite Hf, splice_block.
  (* what is left *)
  apply (scan_tail_drop _ sn
           {| cur := pre ++ ws :: r ++ we :: post; lookForStop := false;
              spliceStart := S (length pre); config := cfg |}); [done| |].
  - simpl cur.
    replace (pre ++ ws :: r ++ we :: post)
      with ((pre ++ [ws]) ++ r ++ we :: post) by (by rewrite <- app_assoc).
    replace (S (length (pre ++ [ws]) + length interior))
      with (length (pre ++ [ws]) + S (length interior)) by lia.
    rewrite drop_app_add.
    apply Forall_drop, Forall_app. split; [done|]. by constructor.
  - simpl cur. rewrite !length_app. simpl. rewrite !length_app. simpl. lia.
Qed.
End Scan.

(** ** Worked examples: tactics *)

Ltac solve_inert :=
  let H := fresh in
  unfold inert; intros H; vm_compute in H;
  first [ discriminate H
        | eexists; split; vm_compute; reflexivity ].

Ltac solve_inert_all :=
  repeat first
    [ apply List.Forall_nil
    | apply List.Forall_cons;
      [first [solve_inert | split; [solve_inert | reflexivity]]|] ].

(** ** Splicing one snippet into one block *)



(** ** A block that follows a block that shrinks *)

(** C1: a file with two blocks named [a], the second right after the
    first, and a snippet named [a] whose rendering has three lines.
    When the first block holds four lines, the scan, whose index is
    kept as it is after the splice has shortened the array, steps over
    the write-start line of the second block: the first block is
    filled and the second block, which names the snippet as well,
    keeps its line.  When the first block holds three lines, as many
    as the rendering, both blocks are filled. *)
Theorem C1_block_after_shrunk_block_kept :
  let sn := ex_snippet "a" ["x := 1"] in
  let shrinks :=
    ex_file ["intro"; ws_a; "old 1"; "old 2"; "old 3"; "old 4"; we_;
             ws_a; "stale"; we_; "outro"] in
  let same_length :=
    ex_file ["intro"; ws_a; "old 1"; "old 2"; "old 3"; we_;
             ws_a; "stale"; we_; "outro"] in
  extractWriteIDAndConfig common JSON_parse_literals ws_a
    = Ok (id sn, JUndefined)
  /\ fst (fmt common sn (JBool false)) = ["```go"; "x := 1"; "```"]
  /\ getSplicedFile common JSON_parse_literals ex_features 30 sn shrinks
     = Ok (ex_file ["intro"; ws_a; "```go"; "x := 1"; "```"; we_;
                    ws_a; "stale"; we_; "outro"])
  /\ getSplicedFile common JSON_parse_literals ex_features 30 sn same_length
     = Ok (ex_file ["intro"; ws_a; "```go"; "x := 1"; "```"; we_;
                    ws_a; "```go"; "x := 1"; "```"; we_; "outro"]).
Proof. vm_compute. repeat split; reflexivity. Qed.

(** ** Splicing again, and splicing two snippets of one name *)

(** C2: a file with two blocks named [a], the first holding more lines
    than the rendering.  The first run leaves the second block as it
    was; the second run fills it: the two outputs differ. *)
Theorem C2_second_run_differs :
  let sn := ex_snippet "a" [] in
  let f0 := ex_file [ws_a; "o1"; "o2"; "o3"; we_; ws_a; "p"; we_] in
  let f1 := ex_file [ws_a; "```go"; "```"; we_; ws_a; "p"; we_] in
  let f2 := ex_file [ws_a; "```go"; "```"; we_; ws_a; "```go"; "```"; we_] in
  spliceSnippets common JSON_parse_literals ex_features 20 [sn] [f0]
    = Ok [f1]
  /\ spliceSnippets common JSON_parse_literals ex_features 20 [sn] [f1]
     = Ok [f2]
  /\ f1 <> f2.
Proof. vm_compute. repeat split; try reflexivity. discriminate. Qed.

(** C3: two snippets named [a], processed in order, over a file with
    two blocks named [a].  The second block is left with the rendering
    of the snippet processed first. *)
Theorem C3_first_rendering_survives :
  let first := ex_snippet "a" ["x := 1"] in
  let last := ex_snippet "a" [] in
  spliceSnippets common JSON_parse_literals ex_features 20 [first; last]
                 [ex_file [ws_a; we_; ws_a; we_]]
  = Ok [ex_file ([ws_a] ++ fst (fmt common last (JBool false)) ++ [we_]
                 ++ [ws_a] ++ fst (fmt common first (JBool false)) ++ [we_])].
Proof. vm_compute. reflexivity. Qed.

Section LastWriteWins.
Variable C : Common.
Variable JSON_parse : string -> option JSValue.
Variable features : JSValue.

Lemma inert_same_id s1 s2 line :
  id s1 = id s2 ->
  inert C JSON_parse s1 line -> inert C JSON_parse s2 line.
Proof. unfold inert. intros <-. done. Qed.


End LastWriteWins.

(** ** Malformed inline payloads *)

Lemma no_start_inert C JSON_parse sn l :
  includes (writeStart C) l = false -> inert C JSON_parse sn l.
Proof. unfold inert. intros ->. done. Qed.

Lemma extract_bad_payload C JSON_parse line id0 payload :
  writeMatch C line = Some (id0, Some payload) ->
  JSON_parse payload = None ->
  extractWriteIDAndConfig C JSON_parse line = Throw (SyntaxError payload).
Proof. intros Hm Hp. unfold extractWriteIDAndConfig. by rewrite Hm, Hp. Qed.

(** C8 (amended): when the scan of a snippet reaches a write-start line
    whose payload the parser rejects, [extractWriteIDAndConfig] throws
    the parser's [SyntaxError], which is made from the payload text
    only, and the exception ends the whole splice: with a snippet to
    process, and no write-start token on the lines before it in the
    first file, [spliceSnippets] returns that exception and no file. *)
Theorem C8_bad_payload_aborts
        (C : Common) (JSON_parse : string -> option JSValue)
        (features : JSValue) (fuel : nat)
        (sn : Snippet) (snippets : list Snippet)
        (file : File) (files : list File)
        (pre post : list string) (line id0 payload : string) :
  flines file = pre ++ line :: post ->
  Forall (fun l => includes (writeStart C) l = false) pre ->
  includes (writeStart C) line = true ->
  writeMatch C line = Some (id0, Some payload) ->
  JSON_parse payload = None ->
  length pre < fuel ->
  extractWriteIDAndConfig C JSON_parse line = Throw (SyntaxError payload)
  /\ spliceSnippets C JSON_parse features fuel (sn :: snippets)
                    (file :: files)
     = Throw (SyntaxError payload).
Proof.
  intros Hf Hpre HS Hm Hp Hfuel.
  pose proof (extract_bad_payload C JSON_parse line id0 payload Hm Hp) as Hx.
  split; [exact Hx|].
  cbn [spliceSnippets spliceFiles]. unfold getSplicedFile.
  set (st0 := {| cur := flines file; lookForStop := false;
                 spliceStart := 0; config := JUndefined |}).
  assert (Hscan : scan C JSON_parse features fuel sn 0 st0
                  = Throw (SyntaxError payload)); [|by rewrite Hscan].
  replace fuel with (S (fuel - length pre - 1) + length pre) by lia.
  rewrite (scan_skip C JSON_parse features _ sn st0 [] pre (line :: post));
    [|done|].
  2:{ eapply Forall_impl; [exact Hpre|]. intros l Hl. split; [|done].
      by apply no_start_inert. }
  rewrite (scan_step C JSON_parse features _ _ _ _ line)
    by (simpl; rewrite Hf; by apply (list_lookup_middle pre)).
  unfold scanLine. by rewrite HS, Hx.
Qed.

Lemma C8_bad_payload_aborts_witness :
  extractWriteIDAndConfig common JSON_parse_literals "<!--SNIPSTART a { -->"
    = Throw (SyntaxError "{ ")
  /\ spliceSnippets common JSON_parse_literals ex_features 5
                    [ex_snippet "a" ["x := 1"]]
                    [ex_file ["intro"; "<!--SNIPSTART a { -->"; we_]]
     = Throw (SyntaxError "{ ").
Proof.
  refine (C8_bad_payload_aborts
            common JSON_parse_literals ex_features 5
            (ex_snippet "a" ["x := 1"]) []
            (ex_file ["intro"; "<!--SNIPSTART a { -->"; we_]) []
            ["intro"] [we_] "<!--SNIPSTART a { -->" "a" "{ "
            _ _ _ _ _ _).
  - reflexivity.
  - repeat constructor.
  - reflexivity.
  - reflexivity.
  - reflexivity.
  - simpl. lia.
Defined.

Lemma C8_counterexample :
  let line := "<!--SNIPSTART a { -->" in
  includes (writeStart common) line = true
  /\ writeMatch common line = Some ("a", Some "{ ")
  /\ JSON_parse_literals "{ " = None
  /\ spliceSnippets common JSON_parse_literals ex_features 5 []
                    [ex_file [line; we_]]
     = Ok [ex_file [line; we_]].
Proof. vm_compute. repeat split; reflexivity. Qed.

(** ** The write-start expression *)

Lemma append_nil_r (s : string) : s +:+ EmptyString = s.
Proof. induction s as [|c s IH]; simpl; [done|]. by rewrite IH. Qed.

Section Matcher.
Context {A : Type}.

Lemma star_fallback cls taken s (k : string -> string -> option A) :
  is_Some (k taken s) -> is_Some (star cls taken s k).
Proof.
  intros Hk. destruct s as [|c s]; simpl; [done|].
  destruct (cls c); [|done].
  by destruct (star cls (taken +:+ String c EmptyString) s k).
Qed.

Lemma star_run cls run rest (k : string -> string -> option A) taken :
  all_chars cls run = true ->
  is_Some (k (taken +:+ run) rest) ->
  is_Some (star cls taken (run +:+ rest) k).
Proof.
  revert taken. induction run as [|c run IH]; intros taken Hall Hk.
  - rewrite append_nil_r in Hk. by apply star_fallback.
  - simpl in Hall. apply andb_prop in Hall as [Hc Hall].
    simpl. rewrite Hc.
    specialize (IH (taken +:+ String c EmptyString) Hall).
    rewrite append_assoc in IH. specialize (IH Hk).
    by destruct IH as [r ->].
Qed.

Lemma plus_run cls run rest (k : string -> string -> option A) :
  all_chars cls run = true -> run <> EmptyString ->
  is_Some (k run rest) ->
  is_Some (plus cls (run +:+ rest) k).
Proof.
  intros Hall Hne Hk. unfold plus. apply star_run; [done|].
  simpl. by destruct run.
Qed.

Lemma startsWith_app tok s : startsWith tok (tok +:+ s) = true.
Proof. induction tok as [|c tok IH]; simpl; [done|]. by rewrite Ascii.eqb_refl. Qed.

Lemma substring_all s : substring 0 (String.length s) s = s.
Proof. induction s as [|c s IH]; simpl; [done|]. by rewrite IH. Qed.

Lemma substring_after tok s :
  substring (String.length tok)
            (String.length (tok +:+ s) - String.length tok) (tok +:+ s) = s.
Proof.
  induction tok as [|c tok IH]; simpl.
  - rewrite Nat.sub_0_r. apply substring_all.
  - exact IH.
Qed.

Lemma leftmost_eq tok (after : string -> option A) line :
  leftmost tok after line
  = match (if startsWith tok line
           then after (substring (String.length tok)
                                 (String.length line - String.length tok) line)
           else None) with
    | Some r => Some r
    | None => match line with
              | EmptyString => None
              | String _ rest => leftmost tok after rest
              end
    end.
Proof. by destruct line. Qed.

Lemma leftmost_found tok (after : string -> option A) pre s :
  is_Some (after s) ->
  is_Some (leftmost tok after (pre +:+ tok +:+ s)).
Proof.
  intros Hs. induction pre as [|c pre IH].
  - change (EmptyString +:+ tok +:+ s) with (tok +:+ s).
    rewrite leftmost_eq, startsWith_app, substring_after.
    by destruct Hs as [r ->].
  - rewrite leftmost_eq. change (String c pre +:+ tok +:+ s)
      with (String c (pre +:+ tok +:+ s)).
    destruct (if startsWith tok (String c (pre +:+ tok +:+ s)) then _ else None);
      [done|exact IH].
Qed.
End Matcher.

Lemma includes_found tok pre s : includes tok (pre +:+ tok +:+ s) = true.
Proof.
  induction pre as [|c pre IH].
  - change (EmptyString +:+ tok +:+ s) with (tok +:+ s).
    destruct (tok +:+ s) eqn:E; simpl; rewrite <- ?E;
      by rewrite startsWith_app.
  - simpl. rewrite IH. apply orb_true_r.
Qed.

Section MatcherSound.
Context {A : Type}.

Lemma all_chars_app cls a b :
  all_chars cls (a +:+ b) = all_chars cls a && all_chars cls b.
Proof. induction a as [|c a IH]; simpl; [done|]. by rewrite IH, andb_assoc. Qed.

Lemma star_sound cls s (k : string -> string -> option A) taken r :
  star cls taken s k = Some r ->
  exists run rest, s = run +:+ rest /\ all_chars cls run = true
                   /\ k (taken +:+ run) rest = Some r.
Proof.
  revert taken. induction s as [|c s IH]; intros taken; simpl.
  - intros Hk. exists EmptyString, EmptyString.
    simpl; rewrite ?append_nil_r; auto.
  - destruct (cls c) eqn:Hc.
    + destruct (star cls (taken +:+ String c EmptyString) s k) as [r'|] eqn:Hs.
      * intros [= ->]. destruct (IH _ Hs) as (run & rest & -> & Hall & Hk).
        exists (String c run), rest. simpl. rewrite Hc, Hall.
        by rewrite append_assoc in Hk.
      * intros Hk. exists EmptyString, (String c s).
        simpl; rewrite ?append_nil_r; auto.
    + intros Hk. exists EmptyString, (String c s).
      simpl; rewrite ?append_nil_r; auto.
Qed.

Lemma plus_sound cls s (k : string -> string -> option A) r :
  plus cls s k = Some r ->
  exists run rest, s = run +:+ rest /\ all_chars cls run = true
                   /\ run <> EmptyString /\ k run rest = Some r.
Proof.
  unfold plus. intros H. apply star_sound in H as (run & rest & -> & Hall & Hk).
  simpl in Hk. exists run, rest. by destruct run.
Qed.

Lemma leftmost_sound tok (after : string -> option A) line r :
  leftmost tok after line = Some r -> exists s, after s = Some r.
Proof.
  induction line as [|c line IH]; rewrite leftmost_eq.
  - destruct (startsWith tok EmptyString); [|done].
    destruct (after _) eqn:E; [|done]. intros [= ->]. eauto.
  - destruct (startsWith tok (String c line)).
    + destruct (after _) eqn:E; [intros [= ->]; eauto|exact IH].
    + exact IH.
Qed.
End MatcherSound.

Lemma writeMatch_id C line id0 p :
  writeMatch C line = Some (id0, p) ->
  id0 <> EmptyString /\ all_chars non_space id0 = true.
Proof.
  unfold writeMatch. intros H.
  apply leftmost_sound in H as (s & H).
  apply plus_sound in H as (sp & s1 & _ & _ & _ & H).
  apply plus_sound in H as (ident & s2 & _ & Hall & Hne & H).
  assert (Hclose : forall (r : string * option string) (b : string),
             (if startsWith (writeStartClose C) b then Some r else None)
             = Some (id0, p) -> r = (id0, p)).
  { intros r b. destruct (startsWith _ b); by intros [= ->]. }
  destruct (plus is_space s2 _) as [r|] eqn:Hg.
  - injection H as ->.
    apply plus_sound in Hg as (? & ? & _ & _ & _ & Hg).
    apply plus_sound in Hg as (? & ? & _ & _ & _ & Hg).
    apply star_sound in Hg as (? & ? & _ & _ & Hg).
    apply Hclose in Hg. by injection Hg as <- _.
  - apply star_sound in H as (? & ? & _ & _ & H).
    apply Hclose in H. by injection H as <- _.
Qed.

Lemma writeMatch_found C pre sp ident mid post :
  all_chars is_space sp = true -> sp <> EmptyString ->
  all_chars non_space ident = true -> ident <> EmptyString ->
  write_tail mid ->
  is_Some (writeMatch C (pre +:+ writeStart C +:+ sp +:+ ident +:+ mid
                           +:+ writeStartClose C +:+ post)).
Proof.
  intros Hsp Hsp' Hid Hid' Hmid. unfold writeMatch.
  apply leftmost_found. apply plus_run; [done|done|].
  apply plus_run; [done|done|].
  destruct Hmid as [Hall|(sp2 & payload & -> & Hs2 & Hs2' & Hp & Hp')].
  - destruct (plus is_space _ _); [done|].
    apply star_run; [done|]. by rewrite startsWith_app.
  - rewrite append_assoc.
    assert (Hg : is_Some
              (plus is_space (sp2 +:+ payload +:+ writeStartClose C +:+ post)
                 (fun _ s3 =>
                    plus is_dot s3 (fun payload0 s4 =>
                    star is_space EmptyString s4
                      (fun _ s : string =>
                         if startsWith (writeStartClose C) s
                         then Some (ident, Some payload0) else None))))).
    { apply plus_run; [done|done|]. apply plus_run; [done|done|].
      apply star_fallback. by rewrite startsWith_app. }
    destruct Hg as [r Hg]. by rewrite Hg.
Qed.

(** C10 (amended): a line that holds the write-start token followed by
    white space, an identifier token, white space or white space and a
    payload (or nothing), and the closing token, contains the token and
    parses: [extractWriteIDAndConfig] returns an identifier, which is a
    non-empty run of characters that are not white space, provided the
    parser accepts the payload when one is captured.  When the line
    holds no write-end token the step of the scan at this line does
    not fail either, for any snippet, index and state: it starts
    looking for the end of the block when the identifier is the
    snippet's, and leaves the state as it is otherwise. *)
Theorem C10_write_start_parses
        (C : Common) (JSON_parse : string -> option JSValue)
        (line pre sp ident mid post : string) :
  line = pre +:+ writeStart C +:+ sp +:+ ident +:+ mid
           +:+ writeStartClose C +:+ post ->
  all_chars is_space sp = true -> sp <> EmptyString ->
  all_chars non_space ident = true -> ident <> EmptyString ->
  write_tail mid ->
  (forall i p, writeMatch C line = Some (i, Some p) ->
               is_Some (JSON_parse p)) ->
  includes (writeStart C) line = true
  /\ exists id0 cfg,
       extractWriteIDAndConfig C JSON_parse line = Ok (id0, cfg)
       /\ id0 <> EmptyString /\ all_chars non_space id0 = true
       /\ forall (features : JSValue) (sn : Snippet) (idx : nat)
                 (st : ScanState),
            includes (writeEnd C) line = false ->
            scanLine C JSON_parse features sn idx line st
            = Ok (if String.eqb id0 (id sn)
                  then {| cur := cur st; lookForStop := true;
                          spliceStart := S idx; config := cfg |}
                  else st).
Proof.
  intros -> Hsp Hsp' Hid Hid' Hmid Hparse.
  set (line := pre +:+ writeStart C +:+ sp +:+ ident +:+ mid
                 +:+ writeStartClose C +:+ post) in *.
  assert (Hinc : includes (writeStart C) line = true)
    by apply includes_found.
  split; [exact Hinc|].
  destruct (writeMatch_found C pre sp ident mid post Hsp Hsp' Hid Hid' Hmid)
    as [[id0 p] Hm].
  fold line in Hm.
  destruct (writeMatch_id C _ _ _ Hm) as [Hne Hall].
  assert (Hx : exists cfg,
             extractWriteIDAndConfig C JSON_parse line = Ok (id0, cfg)).
  { unfold extractWriteIDAndConfig. rewrite Hm.
    destruct p as [p|]; [|by eauto].
    destruct (Hparse _ _ Hm) as [v ->]. eauto. }
  destruct Hx as [cfg Hx]. exists id0, cfg.
  repeat split; try done.
  intros features sn idx st HE. unfold scanLine.
  rewrite Hinc, Hx. cbn [rbind fst snd].
  destruct (String.eqb id0 (id sn)); cbn [rbind lookForStop];
    by rewrite HE.
Qed.

Lemma C10_write_start_parses_witness :
  let line := "<!--SNIPSTART a {} -->" in
  includes (writeStart common) line = true
  /\ exists id0 cfg,
       extractWriteIDAndConfig common JSON_parse_small line = Ok (id0, cfg)
       /\ id0 <> EmptyString /\ all_chars non_space id0 = true
       /\ forall (features : JSValue) (sn : Snippet) (idx : nat)
                 (st : ScanState),
            includes (writeEnd common) line = false ->
            scanLine common JSON_parse_small features sn idx line st
            = Ok (if String.eqb id0 (id sn)
                  then {| cur := cur st; lookForStop := true;
                          spliceStart := S idx; config := cfg |}
                  else st).
Proof.
  refine (C10_write_start_parses common JSON_parse_small
            "<!--SNIPSTART a {} -->" EmptyString " " "a" " {} "
            EmptyString _ _ _ _ _ _ _).
  - reflexivity.
  - reflexivity.
  - discriminate.
  - reflexivity.
  - discriminate.
  - right. exists " ", "{} ". repeat split; try reflexivity; discriminate.
  - intros i p H. vm_compute in H. injection H as _ <-.
    eexists. vm_compute. reflexivity.
Defined.

(** A write-start line without an identifier, one without the closing
    token, and one whose payload the parser rejects: the parse throws
    on each, and the scan of a file that holds the line fails with the
    same exception. *)
Lemma C10_counterexample :
  let no_id := "<!--SNIPSTART-->" in
  let no_close := "<!--SNIPSTART a" in
  let bad_payload := "<!--SNIPSTART a {oops -->" in
  let sn := ex_snippet "a" ["x := 1"] in
  (includes (writeStart common) no_id = true
   /\ extractWriteIDAndConfig common JSON_parse_literals no_id
      = Throw TypeError
   /\ getSplicedFile common JSON_parse_literals ex_features 5 sn
                     (ex_file [no_id; we_])
      = Throw TypeError)
  /\ (includes (writeStart common) no_close = true
      /\ extractWriteIDAndConfig common JSON_parse_literals no_close
         = Throw TypeError
      /\ getSplicedFile common JSON_parse_literals ex_features 5 sn
                        (ex_file [no_close; we_])
         = Throw TypeError)
  /\ (includes (writeStart common) bad_payload = true
      /\ extractWriteIDAndConfig common JSON_parse_literals bad_payload
         = Throw (SyntaxError "{oops ")).
Proof. vm_compute. repeat split; reflexivity. Qed.

(** ** Blocks that no snippet names *)

Section Unmatched.
Variable C : Common.
Variable JSON_parse : string -> option JSValue.
Variable features : JSValue.
Abbreviation hasWS := (includes (writeStart C)).
Abbreviation hasWE := (includes (writeEnd C)).
Abbreviation wf := (wf_line C JSON_parse).

Lemma pend_app p a b : pend C p (a ++ b) = pend C (pend C p a) b.
Proof. revert p. induction a as [|x a IH]; intros p; simpl; [done|]. apply IH. Qed.

Lemma pend_needs_end l : pend C true l = false -> existsb hasWE l = true.
Proof.
  induction l as [|x l IH]; simpl; [done|].
  destruct (hasWE x); [done|]. simpl.
  by destruct (hasWS x).
Qed.

Lemma count_ws_app a b : count_ws C (a ++ b) = count_ws C a + count_ws C b.
Proof. induction a as [|x a IH]; simpl; [done|]. rewrite IH. lia. Qed.

Lemma count_ws_drop_le k l : count_ws C (drop k l) <= count_ws C l.
Proof.
  revert k. induction l as [|x l IH]; intros [|k]; simpl; try lia.
  specialize (IH k). lia.
Qed.

Lemma count_ws_none l :
  Forall (fun x => hasWS x = false) l -> count_ws C l = 0.
Proof. induction 1 as [|x l Hx _ IH]; simpl; [done|]. by rewrite Hx, IH. Qed.

Lemma count_ws_drop_S l i x :
  l !! i = Some x ->
  count_ws C (drop i l) = (if hasWS x then 1 else 0) + count_ws C (drop (S i) l).
Proof. intros H. by rewrite (drop_S _ _ _ H). Qed.

Lemma flag_ok cfg :
  features_ok features ->
  exists flag, enable_source_link (js_or cfg features) = Ok flag.
Proof.
  intros [H1 H2]. unfold js_or.
  destruct (truthy cfg) eqn:Ht.
  - destruct cfg; simpl in *; try done; eauto.
  - destruct features; simpl; try done; eauto.
Qed.

Lemma length_fmt sn flag :
  length (fst (fmt C sn flag)) <= length (lines sn) + 3.
Proof.
  unfold fmt. simpl. destruct (truthy flag); simpl;
    rewrite ?length_app; simpl; rewrite ?length_app; simpl; lia.
Qed.

Variable B : list string.
Abbreviation inv := (scan_inv C JSON_parse B).

Lemma existsb_drop_step pre idx line rest :
  (pre ++ rest) !! idx = Some line ->
  existsb hasWE (drop idx pre) = true ->
  pre !! idx = Some line
  /\ existsb hasWE (drop idx pre)
     = hasWE line || existsb hasWE (drop (S idx) pre).
Proof.
  intros Hlk Hex.
  assert (Hlt : idx < length pre).
  { destruct (le_lt_dec (length pre) idx) as [Hge|]; [|done].
    rewrite drop_ge in Hex by done. done. }
  rewrite lookup_app_l in Hlk by done.
  split; [done|]. by rewrite (drop_S _ _ _ Hlk).
Qed.

Lemma inv_pass idx st line :
  inv idx st -> cur st !! idx = Some line ->
  (lookForStop st = true -> hasWE line = false) ->
  inv (S idx) st.
Proof.
  intros (pre & post & Hcur & Hp & Hwf & Hlook) Hlk Hq.
  exists pre, post. repeat split; try done.
  - destruct (Hlook H) as [? _]. lia.
  - destruct (Hlook H) as [_ [Hex|Hgt]]; [left|by right].
    rewrite Hcur in Hlk.
    destruct (existsb_drop_step _ _ _ _ Hlk Hex) as [_ Heq].
    rewrite Heq, (Hq H) in Hex. done.
Qed.

Lemma measure_pass sn idx st line :
  cur st !! idx = Some line ->
  measure C sn (S idx) st < measure C sn idx st.
Proof.
  intros Hlk. unfold measure. rewrite (count_ws_drop_S _ _ _ Hlk).
  apply lookup_lt_Some in Hlk.
  destruct (hasWS line), (lookForStop st); nia.
Qed.

Lemma clean_wf sn flag :
  clean_render C sn -> Forall wf (fst (fmt C sn flag)).
Proof.
  intros Hc. eapply Forall_impl; [apply (Hc flag)|].
  intros l Hl. unfold wf_line. by rewrite Hl.
Qed.

Lemma splice_eq ls start idx r :
  start <= idx ->
  splice ls start (S idx - start - 1) r = take start ls ++ r ++ drop idx ls.
Proof. intros H. unfold splice. do 3 f_equal. lia. Qed.

Lemma inv_splice sn idx st line flag :
  clean_render C sn ->
  inv idx st -> cur st !! idx = Some line ->
  hasWE line = true -> lookForStop st = true ->
  inv (S idx)
      {| cur := splice (cur st) (spliceStart st) (S idx - spliceStart st - 1)
                       (fst (fmt C sn flag));
         lookForStop := false; spliceStart := spliceStart st;
         config := config st |}.
Proof.
  intros Hclean (pre & post & Hcur & Hp & Hwf & Hlook) Hlk HE HL.
  destruct (Hlook HL) as [Hstart Hwhere].
  rewrite splice_eq by done.
  set (r := fst (fmt C sn flag)).
  assert (Hwf' : Forall wf (take (spliceStart st) (cur st) ++ r
                              ++ drop idx (cur st))).
  { apply Forall_app. split; [by apply Forall_take|].
    apply Forall_app. split; [by apply clean_wf|by apply Forall_drop]. }
  destruct Hwhere as [Hex|Hgt].
  - rewrite Hcur in Hlk.
    destruct (existsb_drop_step _ _ _ _ Hlk Hex) as [Hlk' _].
    assert (Hlt : idx < length pre) by (by apply lookup_lt_Some in Hlk').
    exists (take (spliceStart st) pre ++ r ++ drop idx pre), post.
    cbn [cur lookForStop]. repeat split; try done.
    + rewrite Hcur, take_app_le, drop_app_le by lia.
      by rewrite <- !app_assoc.
    + rewrite (drop_S _ _ _ Hlk'). rewrite !pend_app. simpl. rewrite HE.
      rewrite <- (take_drop_middle _ _ _ Hlk'), pend_app in Hp.
      simpl in Hp. by rewrite HE in Hp.
  - exists pre, (take (spliceStart st - length (pre ++ B)) post ++ r
                   ++ drop (idx - length (pre ++ B)) post).
    cbn [cur lookForStop]. repeat split; try done.
    rewrite Hcur, !app_assoc.
    rewrite take_app_ge, drop_app_ge by (rewrite length_app; lia).
    by rewrite <- !app_assoc.
Qed.

Lemma measure_splice sn idx st line flag :
  clean_render C sn ->
  spliceStart st <= idx ->
  cur st !! idx = Some line ->
  hasWS line = false -> lookForStop st = true ->
  measure C sn (S idx)
      {| cur := splice (cur st) (spliceStart st) (S idx - spliceStart st - 1)
                       (fst (fmt C sn flag));
         lookForStop := false; spliceStart := spliceStart st;
         config := config st |}
  < measure C sn idx st.
Proof.
  intros Hclean Hstart Hlk HS HL. unfold measure. cbn [cur lookForStop].
  rewrite HL, splice_eq by done.
  pose proof (length_fmt sn flag) as Hr.
  pose proof (lookup_lt_Some _ _ _ Hlk) as Hlt.
  set (r := fst (fmt C sn flag)) in *.
  assert (Hc : count_ws C (drop (S idx) (take (spliceStart st) (cur st) ++ r
                                          ++ drop idx (cur st)))
               <= count_ws C (drop idx (cur st))).
  { rewrite drop_app_ge by (rewrite length_take; lia).
    etrans; [apply count_ws_drop_le|].
    rewrite count_ws_app, (count_ws_none r) by apply Hclean. done. }
  rewrite !length_app, length_take, length_drop.
  nia.
Qed.

Lemma inv_start sn idx st line r :
  Forall (inert C JSON_parse sn) B ->
  inv idx st -> cur st !! idx = Some line ->
  hasWS line = true -> hasWE line = false ->
  extractWriteIDAndConfig C JSON_parse line = Ok r ->
  String.eqb (fst r) (id sn) = true ->
  inv (S idx) {| cur := cur st; lookForStop := true; spliceStart := S idx;
                 config := snd r |}.
Proof.
  intros HB (pre & post & Hcur & Hp & Hwf & Hlook) Hlk HS HE Hx Heq.
  exists pre, post. cbn [cur lookForStop spliceStart].
  repeat split; try done.
  rewrite Hcur in Hlk.
  destruct (le_lt_dec (length pre) idx) as [Hge|Hlt].
  - destruct (le_lt_dec (length pre + length B) idx) as [Hge'|Hlt'].
    + right. lia.
    + exfalso. rewrite lookup_app_r, lookup_app_l in Hlk by lia.
      destruct (Forall_lookup_1 _ _ _ _ HB Hlk HS) as (r' & Hx' & Hne).
      rewrite Hx in Hx'. injection Hx' as <-. by rewrite Heq in Hne.
  - left. rewrite lookup_app_l in Hlk by done.
    apply pend_needs_end.
    rewrite <- (take_drop_middle _ _ _ Hlk), pend_app in Hp.
    simpl in Hp. by rewrite HE, HS in Hp.
Qed.

Lemma scan_step_inv sn idx st line :
  Forall (inert C JSON_parse sn) B ->
  clean_render C sn -> features_ok features ->
  inv idx st -> cur st !! idx = Some line ->
  exists st1,
    scanLine C JSON_parse features sn idx line st = Ok st1
    /\ inv (S idx) st1
    /\ measure C sn (S idx) st1 < measure C sn idx st.
Proof.
  intros HB Hclean Hfeat Hinv Hlk.
  assert (Hwfl : wf line).
  { destruct Hinv as (? & ? & _ & _ & Hwf & _).
    exact (Forall_lookup_1 _ _ _ _ Hwf Hlk). }
  unfold scanLine. destruct (hasWS line) eqn:HS.
  - destruct (Hwfl HS) as [[r Hx] HE]. rewrite Hx. cbn [rbind].
    destruct (String.eqb (fst r) (id sn)) eqn:Heq; cbn [rbind].
    + rewrite HE. cbn [andb]. eexists. split; [done|]. split.
      * by eapply inv_start.
      * unfold measure. cbn [cur lookForStop].
        rewrite (count_ws_drop_S _ _ _ Hlk), HS.
        apply lookup_lt_Some in Hlk. destruct (lookForStop st); nia.
    + rewrite HE. cbn [andb]. exists st. split; [done|]. split.
      * by eapply inv_pass.
      * by eapply measure_pass.
  - cbn [rbind].
    destruct (hasWE line) eqn:HE, (lookForStop st) eqn:HL; cbn [andb].
    2,3,4: exists st; split; [done|]; split;
             [eapply inv_pass; [done|done|congruence] | by eapply measure_pass].
    unfold spliceFile.
    destruct (flag_ok (config st) Hfeat) as [flag ->]. cbn [rbind].
    eexists. split; [done|]. split.
    + by eapply inv_splice.
    + destruct Hinv as (? & ? & _ & _ & _ & Hlook).
      destruct (Hlook HL) as [Hstart _].
      by eapply measure_splice.
Qed.

(** The scan from a state that satisfies the invariant, with fuel for
    the work left. *)
Lemma scan_inv_total sn fuel idx st :
  Forall (inert C JSON_parse sn) B ->
  clean_render C sn -> features_ok features ->
  inv idx st -> measure C sn idx st <= fuel ->
  exists pre post,
    scan C JSON_parse features fuel sn idx st = Ok (pre ++ B ++ post)
    /\ pend C false pre = false
    /\ Forall wf (pre ++ B ++ post).
Proof.
  intros HB Hclean Hfeat. revert idx st.
  induction fuel as [|fuel IH]; intros idx st Hinv Hm.
  - destruct (cur st !! idx) as [line|] eqn:Hlk.
    + apply lookup_lt_Some in Hlk. unfold measure in Hm. lia.
    + rewrite scan_done by done.
      destruct Hinv as (pre & post & Hcur & Hp & Hwf & _).
      exists pre, post. by rewrite <- Hcur.
  - destruct (cur st !! idx) as [line|] eqn:Hlk.
    + rewrite (scan_step _ _ _ _ _ _ _ line) by done.
      destruct (scan_step_inv sn idx st line HB Hclean Hfeat Hinv Hlk)
        as (st1 & -> & Hinv1 & Hm1).
      cbn [rbind]. apply IH; [done|lia].
    + rewrite scan_done by done.
      destruct Hinv as (pre & post & Hcur & Hp & Hwf & _).
      exists pre, post. by rewrite <- Hcur.
Qed.

Lemma scan_mono sn fuel fuel' idx st x :
  fuel <= fuel' ->
  scan C JSON_parse features fuel sn idx st = Ok x ->
  scan C JSON_parse features fuel' sn idx st = Ok x.
Proof.
  revert fuel' idx st. induction fuel as [|fuel IH]; intros fuel' idx st Hle.
  - destruct (cur st !! idx) as [line|] eqn:Hlk.
    + simpl. by rewrite Hlk.
    + by rewrite !scan_done.
  - destruct (cur st !! idx) as [line|] eqn:Hlk; [|by rewrite !scan_done].
    destruct fuel' as [|fuel']; [lia|].
    rewrite !(scan_step _ _ _ _ _ _ _ line) by done.
    destruct (scanLine _ _ _ _ _ _ _) as [st1| |]; cbn [rbind]; try done.
    apply IH. lia.
Qed.

Lemma getSplicedFile_mono sn fuel fuel' file x :
  fuel <= fuel' ->
  getSplicedFile C JSON_parse features fuel sn file = Ok x ->
  getSplicedFile C JSON_parse features fuel' sn file = Ok x.
Proof.
  unfold getSplicedFile. intros Hle.
  destruct (scan _ _ _ fuel _ _ _) as [ls| |] eqn:Hs; cbn [rbind]; try done.
  by rewrite (scan_mono _ _ _ _ _ _ Hle Hs).
Qed.

Lemma getSplicedFile_keeps sn file pre post :
  Forall (inert C JSON_parse sn) B ->
  clean_render C sn -> features_ok features ->
  flines file = pre ++ B ++ post ->
  pend C false pre = false ->
  Forall wf (flines file) ->
  exists fuel0 pre' post',
    (forall fuel, fuel0 <= fuel ->
       getSplicedFile C JSON_parse features fuel sn file
       = Ok (set_lines file (pre' ++ B ++ post')))
    /\ pend C false pre' = false
    /\ Forall wf (pre' ++ B ++ post').
Proof.
  intros HB Hclean Hfeat Hf Hp Hwf.
  set (st0 := {| cur := flines file; lookForStop := false;
                 spliceStart := 0; config := JUndefined |}).
  assert (Hinv : inv 0 st0).
  { exists pre, post. cbn [cur lookForStop]. repeat split; done. }
  destruct (scan_inv_total sn (measure C sn 0 st0) 0 st0
              HB Hclean Hfeat Hinv (le_n _))
    as (pre' & post' & Hscan & Hp' & Hwf').
  exists (measure C sn 0 st0), pre', post'. split; [|done].
  intros fuel Hle. eapply getSplicedFile_mono; [exact Hle|].
  unfold getSplicedFile. fold st0. by rewrite Hscan.
Qed.

End Unmatched.

Section ManyFiles.
Variable C : Common.
Variable JSON_parse : string -> option JSValue.
Variable features : JSValue.
Abbreviation holds' := (holds C JSON_parse).

Lemma getSplicedFile_holds sn B file :
  Forall (inert C JSON_parse sn) B ->
  clean_render C sn -> features_ok features ->
  holds' B file ->
  exists fuel0 file',
    (forall fuel, fuel0 <= fuel ->
       getSplicedFile C JSON_parse features fuel sn file = Ok file')
    /\ holds' B file' /\ same_file file file'.
Proof.
  intros HB Hclean Hfeat (pre & post & Hf & Hp & Hwf).
  destruct (getSplicedFile_keeps C JSON_parse features B sn file pre post
              HB Hclean Hfeat Hf Hp Hwf)
    as (fuel0 & pre' & post' & Hrun & Hp' & Hwf').
  exists fuel0, (set_lines file (pre' ++ B ++ post')).
  split; [exact Hrun|]. split; [|done].
  exists pre', post'. done.
Qed.

Lemma spliceFiles_holds sn Bs files :
  Forall (Forall (inert C JSON_parse sn)) Bs ->
  clean_render C sn -> features_ok features ->
  Forall2 holds' Bs files ->
  exists fuel0 files',
    (forall fuel, fuel0 <= fuel ->
       spliceFiles C JSON_parse features fuel sn files = Ok files')
    /\ Forall2 holds' Bs files' /\ Forall2 same_file files files'.
Proof.
  intros HBs Hclean Hfeat Hh. revert HBs.
  induction Hh as [|B file Bs files Hfile _ IH]; intros HBs.
  - exists 0, []. by repeat split; try constructor.
  - apply Forall_cons_1 in HBs as [HB HBs].
    destruct (getSplicedFile_holds sn B file HB Hclean Hfeat Hfile)
      as (f1 & file' & Hrun1 & Hh1 & Hs1).
    destruct (IH HBs) as (f2 & files' & Hrun2 & Hh2 & Hs2).
    exists (Nat.max f1 f2), (file' :: files'). split; [|split].
    + intros fuel Hle. cbn [spliceFiles].
      rewrite Hrun1 by lia. cbn [rbind]. by rewrite Hrun2 by lia.
    + by constructor.
    + by constructor.
Qed.

Lemma same_file_trans f g h : same_file f g -> same_file g h -> same_file f h.
Proof. intros [? ?] [? ?]. split; congruence. Qed.

Lemma spliceSnippets_holds snippets Bs files :
  Forall (fun sn => Forall (Forall (inert C JSON_parse sn)) Bs) snippets ->
  Forall (clean_render C) snippets -> features_ok features ->
  Forall2 holds' Bs files ->
  exists fuel0 files',
    (forall fuel, fuel0 <= fuel ->
       spliceSnippets C JSON_parse features fuel snippets files = Ok files')
    /\ Forall2 holds' Bs files' /\ Forall2 same_file files files'.
Proof.
  intros HBs Hclean Hfeat. revert files.
  induction HBs as [|sn snippets HBsn _ IH]; intros files Hh.
  - exists 0, files. split; [done|]. split; [done|].
    apply Forall_Forall2_diag, Forall_forall. by intros f _.
  - apply Forall_cons_1 in Hclean as [Hc Hclean].
    destruct (spliceFiles_holds sn Bs files HBsn Hc Hfeat Hh)
      as (f1 & files1 & Hrun1 & Hh1 & Hs1).
    destruct (IH Hclean files1 Hh1) as (f2 & files2 & Hrun2 & Hh2 & Hs2).
    exists (Nat.max f1 f2), files2. split; [|split; [done|]].
    + intros fuel Hle. cbn [spliceSnippets].
      rewrite Hrun1 by lia. cbn [rbind]. by rewrite Hrun2 by lia.
    + eapply Forall2_trans; [|exact Hs1|exact Hs2].
      intros ???. apply same_file_trans.
Qed.

Lemma holds_nil fs :
  Forall (fun f => Forall (wf_line C JSON_parse) (flines f)) fs ->
  Forall2 holds' (map (fun _ => []) fs) fs.
Proof.
  induction 1 as [|f fs Hf _ IH]; simpl; constructor; [|done].
  exists [], (flines f). done.
Qed.

Lemma same_file_set_lines f f' :
  same_file f f' -> f' = set_lines f (flines f').
Proof. intros [H1 H2]. destruct f, f'. simpl in *. by subst. Qed.
End ManyFiles.

(** C4 (amended): among target files whose write-start lines are all
    well formed, with the global features an object and no write-start
    token in any rendering, take a file and a write block in it such
    that no write-start line before the block is still waiting for its
    write-end line, and whose identifier is the identifier of no
    snippet of the set.  The whole splice returns, and in its result
    that file still holds the block, marker lines and interior, as it
    was. *)
Theorem C4_unmatched_block_kept
        (C : Common) (JSON_parse : string -> option JSValue)
        (features : JSValue) (snippets : list Snippet)
        (before after : list File) (file : File)
        (pre interior post : list string) (ws we i : string)
        (cfg : JSValue) :
  flines file = pre ++ (ws :: interior ++ [we]) ++ post ->
  pend C false pre = false ->
  Forall (fun f => Forall (wf_line C JSON_parse) (flines f))
         (before ++ file :: after) ->
  features_ok features ->
  Forall (clean_render C) snippets ->
  extractWriteIDAndConfig C JSON_parse ws = Ok (i, cfg) ->
  Forall (fun sn => String.eqb i (id sn) = false) snippets ->
  Forall (fun l => includes (writeStart C) l = false) (interior ++ [we]) ->
  exists fuel0 before' pre' post' after',
    length before' = length before
    /\ forall fuel, fuel0 <= fuel ->
         spliceSnippets C JSON_parse features fuel snippets
                        (before ++ file :: after)
         = Ok (before'
                 ++ set_lines file (pre' ++ (ws :: interior ++ [we]) ++ post')
                 :: after').
Proof.
  intros Hf Hp Hwf Hfeat Hclean Hx Hids Hint.
  set (B := ws :: interior ++ [we]) in *.
  set (Bs := map (fun _ : File => @nil string) before
               ++ B :: map (fun _ : File => @nil string) after).
  apply Forall_app in Hwf as [Hwfb Hwf].
  apply Forall_cons_1 in Hwf as [Hwff Hwfa].
  assert (Hh : Forall2 (holds C JSON_parse) Bs (before ++ file :: after)).
  { apply Forall2_app; [by apply holds_nil|].
    constructor; [|by apply holds_nil]. by exists pre, post. }
  assert (HBs : Forall (fun sn => Forall (Forall (inert C JSON_parse sn)) Bs)
                       snippets).
  { eapply Forall_impl; [exact Hids|]. intros sn Hsn.
    apply Forall_app. split; [apply Forall_forall; intros l Hl;
      apply list_elem_of_fmap in Hl as (? & -> & _); constructor|].
    apply List.Forall_cons.
    - apply List.Forall_cons.
      + intros _. exists (i, cfg). by split.
      + eapply Forall_impl; [exact Hint|]. intros l Hl.
        by apply no_start_inert.
    - apply Forall_forall; intros l Hl;
        apply list_elem_of_fmap in Hl as (? & -> & _); constructor. }
  destruct (spliceSnippets_holds C JSON_parse features snippets Bs _
              HBs Hclean Hfeat Hh) as (fuel0 & files' & Hrun & Hh' & Hs').
  apply Forall2_app_inv_l in Hs' as (before' & rest & Hsb & Hsr & ->).
  apply Forall2_cons_inv_l in Hsr as (f' & after' & Hsf & Hsa & ->).
  pose proof (Forall2_length _ _ _ Hsb) as Hlen.
  apply Forall2_app_inv in Hh' as [_ Hh'];
    [|by rewrite length_map].
  apply Forall2_cons_1 in Hh' as [(pre' & post' & Hf' & _ & _) _].
  exists fuel0, before', pre', post', after'. split; [done|].
  intros fuel Hle. rewrite (Hrun fuel Hle). do 3 f_equal.
  rewrite (same_file_set_lines _ _ Hsf). by rewrite Hf'.
Qed.


Lemma ex_clean_render id0 ls :
  Forall (fun l => includes (writeStart common) l = false) ls ->
  clean_render common (ex_snippet id0 ls).
Proof.
  intros Hls flag. unfold fmt. simpl. destruct (truthy flag); simpl.
  - apply List.Forall_cons; [reflexivity|].
    apply List.Forall_cons; [reflexivity|].
    apply Forall_app. split; [exact Hls|]. by apply List.Forall_cons.
  - apply List.Forall_cons; [reflexivity|].
    apply Forall_app. split; [exact Hls|]. by apply List.Forall_cons.
Defined.

Ltac solve_wf :=
  let H := fresh in
  unfold wf_line; intros H; vm_compute in H;
  first [ discriminate H
        | split; [eexists; vm_compute; reflexivity | reflexivity] ].

Lemma C4_unmatched_block_kept_witness :
  exists fuel0 before' pre' post' after',
    length before' = length (@nil File)
    /\ forall fuel, fuel0 <= fuel ->
         spliceSnippets common JSON_parse_literals ex_features fuel
                        [ex_snippet "a" ["x := 1"]]
                        ([] ++ ex_file [ws_a; "old"; we_; ws_b; "stale";
                                        we_; "tail"]
                            :: [ex_file ["other"]])
         = Ok (before'
                 ++ set_lines
                      (ex_file [ws_a; "old"; we_; ws_b; "stale"; we_; "tail"])
                      (pre' ++ (ws_b :: ["stale"] ++ [we_]) ++ post')
                 :: after').
Proof.
  refine (C4_unmatched_block_kept
            common JSON_parse_literals ex_features
            [ex_snippet "a" ["x := 1"]] [] [ex_file ["other"]]
            (ex_file [ws_a; "old"; we_; ws_b; "stale"; we_; "tail"])
            [ws_a; "old"; we_] ["stale"] ["tail"] ws_b we_ "b" JUndefined
            _ _ _ _ _ _ _ _).
  - reflexivity.
  - reflexivity.
  - repeat (apply List.Forall_cons;
            [repeat (apply List.Forall_cons; [solve_wf|]);
             apply List.Forall_nil|]).
    apply List.Forall_nil.
  - split; discriminate.
  - apply List.Forall_cons; [|apply List.Forall_nil].
    apply ex_clean_render. by repeat constructor.
  - reflexivity.
  - by repeat constructor.
  - by repeat constructor.
Defined.

Lemma C4_counterexample :
  let sn := ex_snippet "a" ["x := 1"] in
  let file := ex_file ([ws_a] ++ (ws_b :: ["keep"] ++ [we_]) ++ []) in
  extractWriteIDAndConfig common JSON_parse_literals ws_b
    = Ok ("b", JUndefined)
  /\ String.eqb "b" (id sn) = false
  /\ spliceSnippets common JSON_parse_literals ex_features 20 [sn] [file]
     = Ok [ex_file [ws_a; "```go"; "x := 1"; "```"; we_]]
  /\ ~ In ws_b [ws_a; "```go"; "x := 1"; "```"; we_]
  /\ ~ In "keep" [ws_a; "```go"; "x := 1"; "```"; we_].
Proof.
  vm_compute. repeat split; try reflexivity.
  all: intros H; repeat destruct H as [H|H]; try discriminate H; exact H.
Qed.

(** * Further properties of the code *)

(** ** Strings: splitting, joining, extensions and paths *)

Lemma join_split sep s : join (String sep EmptyString) (split sep s) = s.
Proof.
  induction s as [|c s IH]; [done|]. simpl.
  destruct (Ascii.eqb c sep) eqn:E.
  - apply Ascii.eqb_eq in E as ->.
    pose proof (split_not_nil sep s) as Hne.
    destruct (split sep s) as [|p ps] eqn:Hs; [done|].
    change (join (String sep EmptyString) (EmptyString :: p :: ps))
      with (String sep (join (String sep EmptyString) (p :: ps))).
    by rewrite IH.
  - pose proof (split_not_nil sep s) as Hne.
    destruct (split sep s) as [|p ps] eqn:Hs; [done|].
    destruct ps as [|q ps]; simpl in *; by rewrite IH.
Qed.

Lemma split_parts_no_sep sep s :
  Forall (fun p => includes (String sep EmptyString) p = false) (split sep s).
Proof.
  induction s as [|c s IH]; simpl.
  - by repeat constructor.
  - destruct (Ascii.eqb c sep) eqn:E.
    + by constructor.
    + pose proof (split_not_nil sep s) as Hne.
      destruct (split sep s) as [|p ps]; [done|].
      apply Forall_cons_1 in IH as [Hp Hps]. constructor; [|done].
      simpl. rewrite Ascii.eqb_sym, E. simpl. exact Hp.
Qed.

Lemma split_join sep parts :
  parts <> [] ->
  Forall (fun p => includes (String sep EmptyString) p = false) parts ->
  split sep (join (String sep EmptyString) parts) = parts.
Proof.
  intros Hne Hall. induction Hall as [|p parts Hp Hall IH]; [done|].
  destruct parts as [|q parts].
  - simpl. by apply split_no_sep.
  - change (join (String sep EmptyString) (p :: q :: parts))
      with (p +:+ String sep (join (String sep EmptyString) (q :: parts))).
    rewrite split_app_sep, (split_no_sep _ _ Hp), IH; done.
Qed.

Lemma last_Forall {A} (P : A -> Prop) l d :
  l <> [] -> Forall P l -> P (List.last l d).
Proof.
  intros Hne Hall. induction Hall as [|x l Hx Hall IH]; [done|].
  destruct l as [|y l]; [done|]. apply IH. done.
Qed.

(** X1: what [fileString] writes splits back, at the line feeds, into the
    lines of the file and one empty string after the last line feed,
    provided the file has a line and no line holds a line feed; a file
    without lines is written as the one line feed that a file made of
    one empty line is written as. *)
Theorem fileString_split_lines :
  (forall f : File,
      flines f <> [] ->
      Forall (fun l => includes (String nl EmptyString) l = false) (flines f) ->
      split nl (fileString f) = flines f ++ [EmptyString])
  /\ (forall f : File,
        flines f = [] ->
        fileString f = String nl EmptyString
        /\ fileString f = fileString (set_lines f [EmptyString])).
Proof.
  split.
  - intros f Hne Hall. unfold fileString.
    assert (Hj : join (String nl EmptyString) (flines f) +:+ String nl EmptyString
                 = join (String nl EmptyString) (flines f ++ [EmptyString])).
    { by rewrite join_app. }
    rewrite Hj. apply split_join.
    + by destruct (flines f).
    + apply Forall_app. split; [done|]. by repeat constructor.
  - intros f Hf. unfold fileString. simpl. by rewrite Hf.
Qed.

Lemma fileString_split_lines_witness :
  split nl (fileString (ex_file ["a"; EmptyString; "b"]))
  = ["a"; EmptyString; "b"] ++ [EmptyString]
  /\ fileString (ex_file []) = fileString (ex_file [EmptyString]).
Proof.
  destruct fileString_split_lines as [H1 H2]. split.
  - apply (H1 (ex_file ["a"; EmptyString; "b"])); [discriminate|].
    by repeat constructor.
  - exact (proj2 (H2 (ex_file []) eq_refl)).
Defined.

(** X2: [determineExtension] never returns a dot; a name without a dot is
    its own extension, and a name that ends with a dot has the empty
    extension. *)
Theorem determineExtension_edges (path : string) :
  includes "." (determineExtension path) = false
  /\ (includes "." path = false -> determineExtension path = path)
  /\ determineExtension (path +:+ ".") = EmptyString.
Proof.
  split; [|split].
  - unfold determineExtension.
    apply (last_Forall (fun p => includes "." p = false));
      [apply split_not_nil|apply split_parts_no_sep].
  - intros H. unfold determineExtension. by rewrite (split_no_sep _ _ H).
  - by apply (determineExtension_dot path EmptyString).
Qed.

Lemma determineExtension_edges_witness :
  determineExtension "Makefile" = "Makefile".
Proof.
  exact (proj1 (proj2 (determineExtension_edges "Makefile")) eq_refl).
Defined.

(** X3: [buildPath] and [buildURL] drop the first segment of the directory,
    whatever it is: with a directory [seg/rest] the label is
    [rest/name]; with a directory of one segment it is the bare file
    name. *)
Theorem buildPath_drops_first_segment (sn : Snippet) (seg rest : string) :
  includes "/" seg = false ->
  (directory (filePath sn) = seg +:+ "/" +:+ rest ->
   buildPath sn = rest +:+ "/" +:+ name (filePath sn)
   /\ buildURL sn
      = "https://github.com/" +:+ owner sn +:+ "/" +:+ repo sn +:+ "/blob/"
          +:+ refOrMaster sn +:+ "/" +:+ rest +:+ "/" +:+ name (filePath sn))
  /\ (directory (filePath sn) = seg ->
      buildPath sn = name (filePath sn)
      /\ buildURL sn
         = "https://github.com/" +:+ owner sn +:+ "/" +:+ repo sn +:+ "/blob/"
             +:+ refOrMaster sn +:+ "/" +:+ name (filePath sn)).
Proof.
  intros Hseg. split; intros Hdir.
  - assert (Hp : buildPath sn = rest +:+ "/" +:+ name (filePath sn)).
    { unfold buildPath. rewrite Hdir.
      change ("/" +:+ rest) with (String "/"%char rest).
      rewrite split_app_sep, (split_no_sep _ _ Hseg). unfold slice1.
      change (drop 1 ([seg] ++ split "/" rest)) with (split "/" rest).
      rewrite join_app by apply split_not_nil. by rewrite join_split. }
    split; [exact Hp|]. by rewrite buildURL_eq, Hp.
  - assert (Hp : buildPath sn = name (filePath sn)).
    { unfold buildPath. rewrite Hdir, (split_no_sep _ _ Hseg). done. }
    split; [exact Hp|]. by rewrite buildURL_eq, Hp.
Qed.

Lemma buildPath_drops_first_segment_witness :
  buildPath (ex_snippet "a" []) = "helloworld" +:+ "/" +:+ "main.go".
Proof.
  exact (proj1 (proj1 (buildPath_drops_first_segment
                         (ex_snippet "a" []) "samples-go-1a2b3c" "helloworld"
                         eq_refl) eq_refl)).
Defined.
(** ** The two [fmt] methods *)

(** X4: the TypeScript [fmt] leaves in [this.lines] exactly the array that
    [fmt] of [Sync.js] returns, and touches nothing else; called [n]
    times it has added [n] pairs of fences (and [n] links when the flag
    is truthy). *)
Theorem fmt_ts_stores_rendering (C : Common) (sn : Snippet) (flag : JSValue)
        (n : nat) :
  SnippetTs.fmt C sn flag = with_lines sn (fst (fmt C sn flag))
  /\ length (lines (Nat.iter n (fun s => SnippetTs.fmt C s flag) sn))
     = length (lines sn) + n * (2 + (if truthy flag then 1 else 0)).
Proof.
  assert (H1 : forall s, SnippetTs.fmt C s flag
                         = with_lines s (fst (fmt C s flag))).
  { intros s. unfold SnippetTs.fmt, SnippetTs.unshift, SnippetTs.push, fmt.
    destruct (truthy flag); simpl; unfold with_lines; simpl;
      by rewrite <- ?app_assoc. }
  split; [apply H1|].
  induction n as [|n IH]; [simpl; lia|].
  simpl Nat.iter. rewrite H1. simpl lines. unfold fmt. simpl fst.
  destruct (truthy flag); simpl; rewrite ?length_app; simpl;
    rewrite ?length_app; simpl; lia.
Qed.
(** ** More on the extractor *)

Section ExtractMore.
Variable C : Common.
Variables (owner0 repo0 : string) (ref0 : option string) (item : FilePath).
Abbreviation hasRS := (includes (readStart C)).
Abbreviation hasRE := (includes (readEnd C)).
Abbreviation step := (extractLine C owner0 repo0 ref0 item).
Abbreviation run := (eachLine C owner0 repo0 ref0 item).
Abbreviation fresh := (newSnippet owner0 repo0 ref0 item).

Abbreviation opened_by := (opened_by C owner0 repo0 ref0 item).

Lemma step_opened st line st1 starts :
  step st line = Ok st1 ->
  Forall2 opened_by (fileSnips st) starts ->
  Forall2 opened_by (fileSnips st1)
          (starts ++ (if hasRS line then [line] else [])).
Proof.
  unfold extractLine. intros Hstep Hinv.
  assert (Hpush : forall n snips1,
             (match fileSnips st !! n with
              | Some sn => Ok (<[n := with_lines sn (lines sn ++ [line])]>
                                 (fileSnips st))
              | None => Throw TypeError
              end) = Ok snips1 ->
             Forall2 opened_by snips1 starts).
  { intros n snips1 H. destruct (fileSnips st !! n) as [sn|] eqn:Hlk; [|done].
    injection H as <-.
    destruct (Forall2_lookup_l _ _ _ _ _ Hinv Hlk) as (l & Hl & Ho).
    rewrite <- (list_insert_id starts n l Hl).
    apply Forall2_insert; [done|]. exact Ho. }
  assert (Hend : forall snips1 c n st',
             Forall2 opened_by snips1 starts ->
             (if hasRS line
              then rbind (extractReadID C line) (fun id0 =>
                     Ok {| capture := true; fileSnipsCount := n;
                           fileSnips := snips1 ++ [fresh id0] |})
              else Ok {| capture := c; fileSnipsCount := n;
                         fileSnips := snips1 |}) = Ok st' ->
             Forall2 opened_by (fileSnips st')
                     (starts ++ (if hasRS line then [line] else []))).
  { intros snips1 c n st' Hs H. destruct (hasRS line).
    - destruct (extractReadID C line) as [i| |] eqn:Hid; try done.
      injection H as <-. cbn [fileSnips].
      apply Forall2_app; [done|]. by repeat constructor.
    - injection H as <-. cbn [fileSnips]. by rewrite app_nil_r. }
  destruct (hasRE line); cbn beta iota in Hstep; cbn [rbind] in Hstep.
  - eapply Hend; [exact Hinv|exact Hstep].
  - destruct (capture st).
    + destruct (match fileSnips st !! fileSnipsCount st with
                | Some sn => _ | None => _ end) as [snips1| |] eqn:Hp;
        try done.
      cbn [rbind] in Hstep. eapply Hend; [|exact Hstep]. by eapply Hpush.
    + cbn [rbind] in Hstep. eapply Hend; [exact Hinv|exact Hstep].
Qed.

Lemma run_opened st ls st1 starts :
  run st ls = Ok st1 ->
  Forall2 opened_by (fileSnips st) starts ->
  Forall2 opened_by (fileSnips st1) (starts ++ List.filter hasRS ls).
Proof.
  revert st starts. induction ls as [|line ls IH]; intros st starts.
  - simpl. intros [= <-] H. by rewrite app_nil_r.
  - simpl. destruct (step st line) as [st'| |] eqn:Hstep; try done.
    cbn [rbind]. intros Hrun Hinv.
    pose proof (IH _ _ Hrun (step_opened _ _ _ _ Hstep Hinv)) as H.
    rewrite <- app_assoc in H. by destruct (hasRS line).
Qed.

Section Lines.
Variable P : string -> Prop.
Abbreviation Q :=
  (fun sn : Snippet => Forall (fun l => hasRE l = false /\ P l) (lines sn)).

Lemma step_lines st line st1 :
  step st line = Ok st1 -> P line ->
  Forall Q (fileSnips st) -> Forall Q (fileSnips st1).
Proof.
  unfold extractLine. intros Hstep HP Hinv.
  assert (Hend : forall snips1 c n st',
             Forall Q snips1 ->
             (if hasRS line
              then rbind (extractReadID C line) (fun id0 =>
                     Ok {| capture := true; fileSnipsCount := n;
                           fileSnips := snips1 ++ [fresh id0] |})
              else Ok {| capture := c; fileSnipsCount := n;
                         fileSnips := snips1 |}) = Ok st' ->
             Forall Q (fileSnips st')).
  { intros snips1 c n st' Hs H. destruct (hasRS line).
    - destruct (extractReadID C line) as [i| |] eqn:Hid; try done.
      injection H as <-. cbn [fileSnips].
      apply Forall_app. split; [done|]. repeat constructor.
    - by injection H as <-. }
  destruct (hasRE line) eqn:HE; cbn beta iota in Hstep; cbn [rbind] in Hstep.
  - eapply Hend; [exact Hinv|exact Hstep].
  - destruct (capture st).
    + destruct (fileSnips st !! fileSnipsCount st) as [sn|] eqn:Hlk;
        [|done].
      cbn [rbind] in Hstep. eapply Hend; [|exact Hstep].
      apply Forall_insert; [done|].
      simpl. apply Forall_app. split.
      * exact (Forall_lookup_1 _ _ _ _ Hinv Hlk).
      * by repeat constructor.
    + cbn [rbind] in Hstep. eapply Hend; [exact Hinv|exact Hstep].
Qed.

Lemma run_lines st ls st1 :
  run st ls = Ok st1 -> Forall P ls ->
  Forall Q (fileSnips st) -> Forall Q (fileSnips st1).
Proof.
  revert st. induction ls as [|line ls IH]; intros st.
  - simpl. by intros [= <-].
  - simpl. destruct (step st line) as [st'| |] eqn:Hstep; try done.
    cbn [rbind]. intros Hrun Hall Hinv.
    apply Forall_cons_1 in Hall as [HP Hall].
    exact (IH _ Hrun Hall (step_lines _ _ _ Hstep HP Hinv)).
Qed.
End Lines.

(** X10: when the extractor returns, it returns one snippet for each line
    that holds the read-start token, in the order of these lines; each
    has the identifier read from its line and the extension, origin and
    path of the file; and every line it captured is a line of the file
    without the read-end token. *)
Theorem extract_one_snippet_per_read_start ls sns :
  extractFileSnippets C owner0 repo0 ref0 item ls = Ok sns ->
  Forall2 opened_by sns (List.filter hasRS ls)
  /\ length sns = length (List.filter hasRS ls)
  /\ Forall (fun sn => Forall (fun l => hasRE l = false /\ In l ls)
                              (lines sn)) sns.
Proof.
  unfold extractFileSnippets.
  destruct (run _ ls) as [st| |] eqn:Hrun; try done.
  cbn [rbind]. intros [= <-].
  pose proof (run_opened _ _ _ [] Hrun (List.Forall2_nil _)) as Ho.
  simpl in Ho. split; [exact Ho|]. split; [by eapply Forall2_length|].
  apply (run_lines (fun l => In l ls) _ _ _ Hrun); [|by constructor].
  by apply Forall_forall, list_elem_of_In.
Qed.
End ExtractMore.
Section ExtractEdges.
Variable C : Common.
Variables (owner0 repo0 : string) (ref0 : option string) (item : FilePath).
Abbreviation hasRS := (includes (readStart C)).
Abbreviation hasRE := (includes (readEnd C)).
Abbreviation step := (extractLine C owner0 repo0 ref0 item).
Abbreviation run := (eachLine C owner0 repo0 ref0 item).
Abbreviation fresh := (newSnippet owner0 repo0 ref0 item).
Abbreviation extract := (extractFileSnippets C owner0 repo0 ref0 item).
Abbreviation made := (map (fun r => with_lines (fresh (rid r)) (body r))).
Abbreviation init :=
  {| capture := false; fileSnipsCount := 0; fileSnips := [] |}.

Lemma run_prefix rs junk rest :
  Forall (region_ok C) rs -> Forall (plain C) junk ->
  run init ((concat (map region_lines rs) ++ junk) ++ rest)
  = run {| capture := false; fileSnipsCount := length rs;
           fileSnips := made rs |} rest.
Proof.
  intros Hrs Hjunk. apply eachLine_app.
  by rewrite (extract_regions_from C owner0 repo0 ref0 item init rs junk
                eq_refl eq_refl Hrs Hjunk).
Qed.

Lemma step_start n snips line i :
  hasRS line = true -> hasRE line = false ->
  extractReadID C line = Ok i ->
  step {| capture := false; fileSnipsCount := n; fileSnips := snips |} line
  = Ok {| capture := true; fileSnipsCount := n;
          fileSnips := snips ++ [fresh i] |}.
Proof. intros HS HE Hi. unfold extractLine. by rewrite HE, HS, Hi. Qed.

Lemma step_start_capturing snips sn after line i :
  hasRS line = true -> hasRE line = false ->
  extractReadID C line = Ok i ->
  step {| capture := true; fileSnipsCount := length snips;
          fileSnips := snips ++ sn :: after |} line
  = Ok {| capture := true; fileSnipsCount := length snips;
          fileSnips := (snips ++ with_lines sn (lines sn ++ [line]) :: after)
                         ++ [fresh i] |}.
Proof.
  intros HS HE Hi. unfold extractLine. rewrite HE, HS, Hi.
  cbn [capture fileSnipsCount fileSnips].
  rewrite list_lookup_middle by done. cbn [rbind].
  rewrite insert_app_r_alt by lia. by rewrite Nat.sub_diag.
Qed.

Lemma step_end c n snips line :
  hasRE line = true -> hasRS line = false ->
  step {| capture := c; fileSnipsCount := n; fileSnips := snips |} line
  = Ok {| capture := false; fileSnipsCount := S n; fileSnips := snips |}.
Proof. intros HE HS. unfold extractLine. by rewrite HE, HS. Qed.

Lemma step_push_out_of_range n snips line :
  hasRE line = false -> length snips <= n ->
  step {| capture := true; fileSnipsCount := n; fileSnips := snips |} line
  = Throw TypeError.
Proof.
  intros HE Hn. unfold extractLine. rewrite HE.
  cbn [capture fileSnipsCount fileSnips].
  by rewrite lookup_ge_None_2.
Qed.

Lemma run_capturing_mid snips sn after ls :
  Forall (plain C) ls ->
  run {| capture := true; fileSnipsCount := length snips;
         fileSnips := snips ++ sn :: after |} ls
  = Ok {| capture := true; fileSnipsCount := length snips;
          fileSnips := snips ++ with_lines sn (lines sn ++ ls) :: after |}.
Proof.
  intros Hls. revert sn. induction Hls as [|l ls [Hs He] _ IH]; intros sn.
  - simpl. rewrite app_nil_r. by destruct sn.
  - simpl. unfold extractLine. rewrite He, Hs. simpl.
    rewrite list_lookup_middle by done. simpl.
    rewrite insert_app_r_alt by lia. rewrite Nat.sub_diag. simpl.
    rewrite IH. simpl. by rewrite <- app_assoc.
Qed.

(** X11: a capture that is still open at the end of the file yields its
    snippet all the same, with the lines up to the end; nothing is
    reported. *)
Theorem extract_open_at_end rs junk start i body :
  Forall (region_ok C) rs -> Forall (plain C) junk ->
  hasRS start = true -> hasRE start = false ->
  extractReadID C start = Ok i ->
  Forall (plain C) body ->
  extract ((concat (map region_lines rs) ++ junk) ++ start :: body)
  = Ok (made rs ++ [with_lines (fresh i) body]).
Proof.
  intros Hrs Hjunk HS HE Hi Hbody. unfold extractFileSnippets.
  rewrite run_prefix by done. simpl eachLine.
  rewrite (step_start _ _ _ i) by done. cbn [rbind].
  replace (length rs) with (length (made rs)) by apply length_map.
  by rewrite run_capturing_mid.
Qed.

(** X12: a read-start line met while a capture is open does not close it:
    the line itself and the lines after it go on into the snippet that
    was open, and the snippet it opens stays empty. *)
Theorem extract_start_inside_capture rs junk s1 i1 b1 s2 i2 b2 endl tail :
  Forall (region_ok C) rs -> Forall (plain C) junk ->
  hasRS s1 = true -> hasRE s1 = false -> extractReadID C s1 = Ok i1 ->
  Forall (plain C) b1 ->
  hasRS s2 = true -> hasRE s2 = false -> extractReadID C s2 = Ok i2 ->
  Forall (plain C) b2 ->
  hasRE endl = true -> hasRS endl = false ->
  Forall (plain C) tail ->
  extract ((concat (map region_lines rs) ++ junk)
             ++ s1 :: b1 ++ s2 :: b2 ++ endl :: tail)
  = Ok (made rs ++ [with_lines (fresh i1) (b1 ++ s2 :: b2); fresh i2]).
Proof.
  intros Hrs Hjunk HS1 HE1 Hi1 Hb1 HS2 HE2 Hi2 Hb2 HEe HSe Htail.
  unfold extractFileSnippets. rewrite run_prefix by done.
  simpl eachLine. rewrite (step_start _ _ _ i1) by done. cbn [rbind].
  replace (length rs) with (length (made rs)) by apply length_map.
  rewrite (eachLine_app _ _ _ _ _ _ _ _ _
             (run_capturing_mid (made rs) (fresh i1) [] b1 Hb1)).
  simpl eachLine. rewrite (step_start_capturing _ _ _ _ i2) by done.
  cbn [rbind]. rewrite <- app_assoc.
  change ([?x] ++ [fresh i2]) with [x; fresh i2].
  rewrite (eachLine_app _ _ _ _ _ _ _ _ _
             (run_capturing_mid (made rs) _ [fresh i2] b2 Hb2)).
  simpl eachLine. rewrite step_end by done. cbn [rbind].
  rewrite eachLine_idle by done. cbn [rbind fileSnips].
  simpl. by rewrite <- app_assoc.
Qed.

(** X13: a read-end line met while no capture is open puts the counter one
    ahead of the snippets for good: the first line captured after it
    makes the extractor throw, whatever follows. *)
Theorem extract_stray_read_end_throws rs junk endl junk2 start i x rest :
  Forall (region_ok C) rs -> Forall (plain C) junk ->
  hasRE endl = true -> hasRS endl = false ->
  Forall (plain C) junk2 ->
  hasRS start = true -> hasRE start = false ->
  extractReadID C start = Ok i ->
  hasRE x = false ->
  extract ((concat (map region_lines rs) ++ junk)
             ++ endl :: junk2 ++ start :: x :: rest)
  = Throw TypeError.
Proof.
  intros Hrs Hjunk HEe HSe Hj2 HS HE Hi Hx.
  unfold extractFileSnippets. rewrite run_prefix by done.
  simpl eachLine. rewrite step_end by done. cbn [rbind].
  rewrite (eachLine_app _ _ _ _ _ _ _ _ _
             (eachLine_idle C owner0 repo0 ref0 item
                {| capture := false; fileSnipsCount := S (length rs);
                   fileSnips := made rs |} junk2 eq_refl Hj2)).
  simpl eachLine. rewrite (step_start _ _ _ i) by done. cbn [rbind].
  rewrite step_push_out_of_range; [done|done|].
  rewrite length_app, length_map. simpl. lia.
Qed.

(** X14: a line that holds the read-start token but no identifier after it
    makes the extractor throw; the snippets found before it are lost
    with the exception. *)
Theorem extract_read_start_without_id_throws rs junk bad rest :
  Forall (region_ok C) rs -> Forall (plain C) junk ->
  hasRS bad = true -> readMatch C bad = None ->
  extract ((concat (map region_lines rs) ++ junk) ++ bad :: rest)
  = Throw TypeError.
Proof.
  intros Hrs Hjunk HS Hm. unfold extractFileSnippets.
  rewrite run_prefix by done. simpl eachLine.
  unfold extractLine, extractReadID. rewrite HS, Hm.
  by destruct (hasRE bad).
Qed.
End ExtractEdges.

Ltac solve_plain_all :=
  repeat first [ apply List.Forall_nil
               | apply List.Forall_cons; [split; reflexivity|] ].

Lemma ex_region_ok : region_ok common ex_region.
Proof. repeat split; try reflexivity; solve_plain_all. Defined.

Lemma extract_one_snippet_per_read_start_witness :
  let ls := ["intro"; rs_a; "x := 1"; re_; rs_b; "y := 2"] in
  let sns := [ex_snippet "a" ["x := 1"]; ex_snippet "b" ["y := 2"]] in
  Forall2 (opened_by common "temporalio" "samples-go" None ex_path) sns
          (List.filter (includes (readStart common)) ls)
  /\ length sns = length (List.filter (includes (readStart common)) ls)
  /\ Forall (fun sn => Forall (fun l => includes (readEnd common) l = false
                                        /\ In l ls) (lines sn)) sns.
Proof.
  exact (extract_one_snippet_per_read_start
           common "temporalio" "samples-go" None ex_path
           ["intro"; rs_a; "x := 1"; re_; rs_b; "y := 2"]
           [ex_snippet "a" ["x := 1"]; ex_snippet "b" ["y := 2"]] eq_refl).
Defined.

Lemma extract_open_at_end_witness :
  extractFileSnippets common "temporalio" "samples-go" None ex_path
    ((concat (map region_lines [ex_region]) ++ ["between"])
       ++ rs_b :: ["y := 2"; "z := 3"])
  = Ok (map (fun r => with_lines
                        (newSnippet "temporalio" "samples-go" None ex_path
                                    (rid r)) (body r)) [ex_region]
          ++ [ex_snippet "b" ["y := 2"; "z := 3"]]).
Proof.
  refine (extract_open_at_end
            common "temporalio" "samples-go" None ex_path
            [ex_region] ["between"] rs_b "b" ["y := 2"; "z := 3"]
            _ _ _ _ _ _).
  - apply List.Forall_cons; [exact ex_region_ok|apply List.Forall_nil].
  - solve_plain_all.
  - reflexivity.
  - reflexivity.
  - reflexivity.
  - solve_plain_all.
Defined.

Lemma extract_start_inside_capture_witness :
  extractFileSnippets common "temporalio" "samples-go" None ex_path
    ((concat (map region_lines []) ++ ["intro"])
       ++ rs_a :: ["x := 1"] ++ rs_b :: ["y := 2"] ++ re_ :: ["outro"])
  = Ok ([] ++ [ex_snippet "a" (["x := 1"] ++ rs_b :: ["y := 2"]);
               ex_snippet "b" []]).
Proof.
  refine (extract_start_inside_capture
            common "temporalio" "samples-go" None ex_path
            [] ["intro"] rs_a "a" ["x := 1"] rs_b "b" ["y := 2"] re_
            ["outro"] _ _ _ _ _ _ _ _ _ _ _ _ _);
    try reflexivity; solve_plain_all.
Defined.

Lemma extract_stray_read_end_throws_witness :
  extractFileSnippets common "temporalio" "samples-go" None ex_path
    ((concat (map region_lines [ex_region]) ++ [])
       ++ re_ :: ["between"] ++ rs_b :: "y := 2" :: [re_; "outro"])
  = Throw TypeError.
Proof.
  refine (extract_stray_read_end_throws
            common "temporalio" "samples-go" None ex_path
            [ex_region] [] re_ ["between"] rs_b "b" "y := 2" [re_; "outro"]
            _ _ _ _ _ _ _ _ _);
    try reflexivity; try solve_plain_all.
  apply List.Forall_cons; [exact ex_region_ok|apply List.Forall_nil].
Defined.

Lemma extract_read_start_without_id_throws_witness :
  extractFileSnippets common "temporalio" "samples-go" None ex_path
    ((concat (map region_lines [ex_region]) ++ ["between"])
       ++ "// @@@SNIPSTART" :: ["y := 2"; re_])
  = Throw TypeError.
Proof.
  refine (extract_read_start_without_id_throws
            common "temporalio" "samples-go" None ex_path
            [ex_region] ["between"] "// @@@SNIPSTART" ["y := 2"; re_]
            _ _ _ _);
    try reflexivity; try solve_plain_all.
  apply List.Forall_cons; [exact ex_region_ok|apply List.Forall_nil].
Defined.
(** ** More on the clear engine *)

Section ClearMore.
Variable C : Common.
Abbreviation hasWS := (includes (writeStart C)).
Abbreviation hasWE := (includes (writeEnd C)).

Lemma clearLoop_sublist omit ls : clearLoop C omit ls `sublist_of` ls.
Proof.
  revert omit. induction ls as [|line rest IH]; intros omit; simpl; [done|].
  destruct (if hasWE line then false else omit).
  - simpl. apply sublist_cons, IH.
  - simpl. apply sublist_skip, IH.
Qed.

Lemma clearLoop_keeps_ends omit ls :
  List.filter hasWE (clearLoop C omit ls) = List.filter hasWE ls.
Proof.
  revert omit. induction ls as [|line rest IH]; intros omit; simpl; [done|].
  destruct (hasWE line) eqn:HE; simpl.
  - rewrite HE. by rewrite IH.
  - destruct omit; simpl; [apply IH|]. rewrite HE. apply IH.
Qed.

Lemma clearLoop_interior omit a ws x b :
  hasWS ws = true -> Forall (fun l => hasWE l = false) x ->
  clearLoop C omit (a ++ ws :: x ++ b) = clearLoop C omit (a ++ ws :: b).
Proof.
  intros HS Hx. revert omit. induction a as [|l a IH]; intros omit.
  - simpl. rewrite HS. by rewrite clearLoop_app_no_end.
  - simpl. by rewrite IH.
Qed.
End ClearMore.

(** X15: clearing only removes lines: the cleared body is a subsequence of
    the body, it keeps every line that holds the write-end token, and
    it is never longer than the body. *)
Theorem clear_only_removes (C : Common) (file : File) :
  flines (getClearedFile C file) `sublist_of` flines file
  /\ List.filter (includes (writeEnd C)) (flines (getClearedFile C file))
     = List.filter (includes (writeEnd C)) (flines file)
  /\ length (flines (getClearedFile C file)) <= length (flines file).
Proof.
  split; [apply clearLoop_sublist|]. split; [apply clearLoop_keeps_ends|].
  apply sublist_length, clearLoop_sublist.
Qed.

(** X16: a write-start line that no write-end line follows makes clearing
    drop every line after it, to the end of the file. *)
Theorem clear_unterminated_block (C : Common) (file : File)
        (pre rest : list string) (ws : string) :
  flines file = pre ++ ws :: rest ->
  Forall (fun l => includes (writeStart C) l = false) pre ->
  includes (writeStart C) ws = true ->
  Forall (fun l => includes (writeEnd C) l = false) rest ->
  flines (getClearedFile C file) = pre ++ [ws].
Proof.
  intros Hf Hpre HS Hrest. simpl.
  rewrite Hf, clearLoop_app_no_start by done. simpl. rewrite HS.
  replace (if includes (writeEnd C) ws then false else false) with false
    by (by destruct (includes (writeEnd C) ws)).
  simpl. by rewrite clearLoop_no_end.
Qed.
(** ** More on the splice engine *)

Section SpliceMore.
Variable C : Common.
Variable JSON_parse : string -> option JSValue.
Variable features : JSValue.
Abbreviation hasWS := (includes (writeStart C)).
Abbreviation hasWE := (includes (writeEnd C)).
Abbreviation inert' := (inert C JSON_parse).
Abbreviation splice1 := (getSplicedFile C JSON_parse features).

Lemma set_lines_flines (f : File) : set_lines f (flines f) = f.
Proof. by destruct f. Qed.

Lemma getSplicedFile_inert fuel sn file :
  Forall (inert' sn) (flines file) -> length (flines file) <= fuel ->
  splice1 fuel sn file = Ok file.
Proof.
  intros Hin Hfuel. unfold getSplicedFile.
  rewrite (scan_tail C JSON_parse features fuel sn _ [] (flines file));
    try done.
  cbn [rbind cur]. by rewrite set_lines_flines.
Qed.

Lemma spliceFiles_inert fuel sn files :
  Forall (fun f => Forall (inert' sn) (flines f)) files ->
  Forall (fun f => length (flines f) <= fuel) files ->
  spliceFiles C JSON_parse features fuel sn files = Ok files.
Proof.
  induction 1 as [|f files Hf _ IH]; intros Hfuel; [done|].
  apply Forall_cons_1 in Hfuel as [Hf' Hfuel].
  cbn [spliceFiles]. rewrite getSplicedFile_inert by done. cbn [rbind].
  by rewrite IH.
Qed.

(** The scan up to the write-end line of the first block that names
    the snippet. *)
Lemma scan_to_stop fuel sn file pre ws interior we post cfg :
  flines file = pre ++ ws :: interior ++ we :: post ->
  Forall (inert' sn) pre ->
  hasWS ws = true -> hasWE ws = false ->
  extractWriteIDAndConfig C JSON_parse ws = Ok (id sn, cfg) ->
  Forall (fun l => inert' sn l /\ hasWE l = false) interior ->
  scan C JSON_parse features
       (S fuel + S (length interior) + length pre) sn 0
       {| cur := flines file; lookForStop := false; spliceStart := 0;
          config := JUndefined |}
  = rbind (scanLine C JSON_parse features sn
                    (length pre + S (length interior)) we
                    {| cur := flines file; lookForStop := true;
                       spliceStart := S (length pre); config := cfg |})
          (scan C JSON_parse features fuel sn
                (S (length pre + S (length interior)))).
Proof.
  intros Hf Hpre HS HE Hx Hint.
  set (st0 := {| cur := flines file; lookForStop := false;
                 spliceStart := 0; config := JUndefined |}).
  set (st1 := {| cur := flines file; lookForStop := true;
                 spliceStart := S (length pre); config := cfg |}).
  rewrite (scan_skip C JSON_parse features _ sn st0 [] pre
             (ws :: interior ++ we :: post)); [|done|].
  2:{ eapply Forall_impl; [exact Hpre|]. by intros l Hl. }
  change (length (@nil string) + length pre) with (length pre).
  replace (S fuel + S (length interior)) with (S (S fuel + length interior))
    by lia.
  rewrite (scan_step C JSON_parse features _ _ _ _ ws)
    by (simpl; rewrite Hf; by apply (list_lookup_middle pre)).
  rewrite (scanLine_start C JSON_parse features sn _ ws st0 cfg HS HE Hx).
  cbn [rbind]. fold st1.
  replace (S (length pre)) with (length (pre ++ [ws])) at 1
    by (rewrite length_app; simpl; lia).
  rewrite (scan_skip C JSON_parse features _ sn st1 (pre ++ [ws]) interior
             (we :: post)).
  2:{ simpl. rewrite Hf. by rewrite <- app_assoc. }
  2:{ eapply Forall_impl; [exact Hint|]. intros l [Hl1 Hl2]. by split. }
  rewrite (scan_step C JSON_parse features _ _ _ _ we).
  2:{ simpl. rewrite Hf.
      replace (pre ++ ws :: interior ++ we :: post)
        with (((pre ++ [ws]) ++ interior) ++ we :: post)
        by (by rewrite <- !app_assoc).
      rewrite <- length_app. by apply list_lookup_middle. }
  rewrite length_app. simpl length.
  by replace (length pre + 1 + length interior)
    with (length pre + S (length interior)) by lia.
Qed.
End SpliceMore.
(** X17: a snippet set none of whose identifiers is named by a write-start
    line, over files whose write-start lines parse, changes no file at
    all, whatever the global features and the fuel beyond the length of
    the longest file. *)
Theorem splice_without_target_is_identity
        (C : Common) (JSON_parse : string -> option JSValue)
        (features : JSValue) (fuel : nat)
        (snippets : list Snippet) (files : list File) :
  Forall (fun sn =>
            Forall (fun f => Forall (inert C JSON_parse sn) (flines f)) files)
         snippets ->
  Forall (fun f => length (flines f) <= fuel) files ->
  spliceSnippets C JSON_parse features fuel snippets files = Ok files.
Proof.
  intros Hin Hfuel. induction Hin as [|sn snippets Hsn _ IH]; [done|].
  cbn [spliceSnippets]. rewrite spliceFiles_inert by done. exact IH.
Qed.


(** X22: without an inline payload on the write-start line and without
    global features ([undefined] or [null]), the scan throws at the
    write-end line of the first block that names the snippet. *)
Theorem splice_without_features_throws
        (C : Common) (JSON_parse : string -> option JSValue)
        (features : JSValue) (fuel : nat) (sn : Snippet) (file : File)
        (pre interior post : list string) (ws we : string) (cfg : JSValue) :
  flines file = pre ++ ws :: interior ++ we :: post ->
  Forall (inert C JSON_parse sn) pre ->
  includes (writeStart C) ws = true ->
  includes (writeEnd C) ws = false ->
  extractWriteIDAndConfig C JSON_parse ws = Ok (id sn, cfg) ->
  Forall (fun l => inert C JSON_parse sn l
                   /\ includes (writeEnd C) l = false) interior ->
  includes (writeEnd C) we = true ->
  inert C JSON_parse sn we ->
  truthy cfg = false ->
  features = JUndefined \/ features = JNull ->
  length pre + length interior + 2 <= fuel ->
  getSplicedFile C JSON_parse features fuel sn file = Throw TypeError.
Proof.
  intros Hf Hpre HS HE Hx Hint HwE Hwe Hcfg Hfeat Hfuel.
  unfold getSplicedFile.
  replace fuel with (S (fuel - length pre - length interior - 2)
                     + S (length interior) + length pre) by lia.
  rewrite (scan_to_stop C JSON_parse features _ sn file pre ws interior we
             post cfg) by done.
  assert (Hline : scanLine C JSON_parse features sn
                    (length pre + S (length interior)) we
                    {| cur := flines file; lookForStop := true;
                       spliceStart := S (length pre); config := cfg |}
                  = Throw TypeError); [|by rewrite Hline].
  unfold scanLine.
  assert (Hst1 : (if includes (writeStart C) we
            then rbind (extractWriteIDAndConfig C JSON_parse we)
              (fun extracted =>
                 if String.eqb (fst extracted) (id sn)
                 then Ok {| cur := flines file; lookForStop := true;
                            spliceStart := S (length pre + S (length interior));
                            config := snd extracted |}
                 else Ok {| cur := flines file; lookForStop := true;
                            spliceStart := S (length pre); config := cfg |})
            else Ok {| cur := flines file; lookForStop := true;
                       spliceStart := S (length pre); config := cfg |})
          = Ok {| cur := flines file; lookForStop := true;
                  spliceStart := S (length pre); config := cfg |}).
  { destruct (includes (writeStart C) we) eqn:HSe; [|done].
    destruct (Hwe HSe) as (r & -> & Hr). simpl. by rewrite Hr. }
  cbn [cur lookForStop spliceStart config]. rewrite Hst1. cbn [rbind].
  cbn [cur lookForStop spliceStart config]. rewrite HwE. cbn [andb].
  unfold spliceFile, js_or. rewrite Hcfg.
  by destruct Hfeat as [-> | ->].
Qed.

(** X23: an inline payload that is an object replaces the global features
    as a whole: the flag is read from the payload alone, and a key that
    the payload lacks is not looked up in the global features. *)
Theorem inline_config_replaces_features
        (C : Common) (JSON_parse : string -> option JSValue)
        (features : JSValue) (fuel : nat) (sn : Snippet) (file : File)
        (pre interior post : list string) (ws we : string)
        (fields : list (string * JSValue)) :
  flines file = pre ++ ws :: interior ++ we :: post ->
  Forall (inert C JSON_parse sn) pre ->
  includes (writeStart C) ws = true ->
  includes (writeEnd C) ws = false ->
  extractWriteIDAndConfig C JSON_parse ws = Ok (id sn, JObject fields) ->
  Forall (fun l => inert C JSON_parse sn l
                   /\ includes (writeEnd C) l = false) interior ->
  includes (writeEnd C) we = true ->
  inert C JSON_parse sn we ->
  Forall (inert C JSON_parse sn) post ->
  let flag := field "enable_source_link" fields in
  Forall (inert C JSON_parse sn) (fst (fmt C sn flag)) ->
  length pre + length interior + length (fst (fmt C sn flag))
    + length post + 2 <= fuel ->
  getSplicedFile C JSON_parse features fuel sn file
  = Ok (set_lines file (pre ++ ws :: fst (fmt C sn flag) ++ we :: post))
  /\ (flag = JUndefined ->
      fst (fmt C sn flag)
      = fmtStartCodeBlock C (ext sn) :: lines sn ++ [markdownCodeTicks C]).
Proof.
  intros Hf Hpre HS HE Hx Hint HwE Hwe Hpost flag Hr Hfuel. split.
  - by apply (getSplicedFile_block C JSON_parse features fuel sn file
                pre ws interior we post (JObject fields) flag).
  - intros ->. unfold fmt. simpl. done.
Qed.

Lemma clear_unterminated_block_witness :
  flines (getClearedFile common
            (ex_file ["intro"; ws_a; "old 1"; "old 2"; "outro"]))
  = ["intro"] ++ [ws_a].
Proof.
  refine (clear_unterminated_block common
            (ex_file ["intro"; ws_a; "old 1"; "old 2"; "outro"])
            ["intro"] ["old 1"; "old 2"; "outro"] ws_a _ _ _ _);
    try reflexivity; by repeat constructor.
Defined.

Lemma splice_without_target_is_identity_witness :
  spliceSnippets common JSON_parse_literals JUndefined 4
                 [ex_snippet "a" ["x := 1"]; ex_snippet "c" []]
                 [ex_file ["intro"; ws_b; "stale"; we_]; ex_file []]
  = Ok [ex_file ["intro"; ws_b; "stale"; we_]; ex_file []].
Proof.
  refine (splice_without_target_is_identity
            common JSON_parse_literals JUndefined 4
            [ex_snippet "a" ["x := 1"]; ex_snippet "c" []]
            [ex_file ["intro"; ws_b; "stale"; we_]; ex_file []] _ _).
  - repeat (apply List.Forall_cons;
            [repeat (apply List.Forall_cons; [solve_inert_all|]);
             apply List.Forall_nil|]).
    apply List.Forall_nil.
  - repeat (apply List.Forall_cons; [simpl; lia|]). apply List.Forall_nil.
Defined.


Lemma splice_without_features_throws_witness :
  getSplicedFile common JSON_parse_literals JUndefined 20
                 (ex_snippet "a" ["x := 1"])
                 (ex_file ["intro"; ws_a; "old"; we_; "outro"])
  = Throw TypeError.
Proof.
  refine (splice_without_features_throws
            common JSON_parse_literals JUndefined 20
            (ex_snippet "a" ["x := 1"])
            (ex_file ["intro"; ws_a; "old"; we_; "outro"])
            ["intro"] ["old"] ["outro"] ws_a we_ JUndefined
            _ _ _ _ _ _ _ _ _ _ _);
    try reflexivity; try solve_inert; try solve_inert_all.
  - by left.
  - simpl. lia.
Defined.

Lemma inline_config_replaces_features_witness :
  getSplicedFile common JSON_parse_small ex_features_link 20
                 (ex_snippet "a" ["x := 1"])
                 (ex_file ["intro"; "<!--SNIPSTART a {} -->"; "old"; we_])
  = Ok (set_lines
          (ex_file ["intro"; "<!--SNIPSTART a {} -->"; "old"; we_])
          (["intro"] ++ "<!--SNIPSTART a {} -->"
             :: fst (fmt common (ex_snippet "a" ["x := 1"]) JUndefined)
             ++ we_ :: [])).
Proof.
  refine (proj1 (inline_config_replaces_features
            common JSON_parse_small ex_features_link 20
            (ex_snippet "a" ["x := 1"])
            (ex_file ["intro"; "<!--SNIPSTART a {} -->"; "old"; we_])
            ["intro"] ["old"] [] "<!--SNIPSTART a {} -->" we_ []
            _ _ _ _ _ _ _ _ _ _ _));
    try reflexivity; try solve_inert; try solve_inert_all.
  simpl. lia.
Defined.
(** ** A scan that does not end *)

Section Diverge.
Variable C : Common.
Variable JSON_parse : string -> option JSValue.
Variable features : JSValue.
Variables (sn : Snippet) (ws we : string) (cfg flag : JSValue)
          (pre post : list string).
Hypothesis Hlines : lines sn = [ws; we].
Hypothesis Hpre : Forall (inert C JSON_parse sn) pre.
Hypothesis HS : includes (writeStart C) ws = true.
Hypothesis HE : includes (writeEnd C) ws = false.
Hypothesis Hx : extractWriteIDAndConfig C JSON_parse ws = Ok (id sn, cfg).
Hypothesis HwE : includes (writeEnd C) we = true.
Hypothesis HwS : includes (writeStart C) we = false.
Hypothesis Hflag : enable_source_link (js_or cfg features) = Ok flag.
Hypothesis Hoff : truthy flag = false.

Abbreviation F := (fmtStartCodeBlock C (ext sn)).
Abbreviation T := (markdownCodeTicks C).
Abbreviation round k :=
  (pre ++ heads ws F k ++ [ws; we] ++ tails T we k ++ post).
Abbreviation at_block k := (length pre + 2 * k).

Lemma length_heads k : length (heads ws F k) = 2 * k.
Proof. induction k as [|k IH]; simpl; [done|]. rewrite length_app. simpl. lia. Qed.

Lemma rendering_quote : fst (fmt C sn flag) = [F; ws; we; T].
Proof. unfold fmt. simpl. by rewrite Hoff, Hlines. Qed.

Lemma round_split k :
  round k = (pre ++ heads ws F k ++ [ws]) ++ we :: tails T we k ++ post.
Proof. by rewrite <- !app_assoc. Qed.

Lemma round_splice k :
  splice (round k) (S (at_block k)) 0 (fst (fmt C sn flag)) = round (S k).
Proof.
  unfold splice. rewrite rendering_quote, Nat.add_0_r, round_split.
  rewrite take_app_length', drop_app_length'
    by (rewrite !length_app, length_heads; simpl; lia).
  simpl. by rewrite <- !app_assoc.
Qed.

Lemma scan_no_fuel idx st line :
  cur st !! idx = Some line ->
  scan C JSON_parse features 0 sn idx st = OutOfFuel.
Proof. intros H. simpl. by rewrite H. Qed.

(** From the write-start line of the innermost copy on, every two
    steps end at the write-start line of a new copy. *)
Lemma scan_never_ends fuel k start0 config0 :
  scan C JSON_parse features fuel sn (at_block k)
       {| cur := round k; lookForStop := false; spliceStart := start0;
          config := config0 |}
  = OutOfFuel.
Proof.
  revert k start0 config0.
  induction fuel as [fuel IH] using lt_wf_ind. intros k start0 config0.
  assert (H0 : round k !! at_block k = Some ws).
  { rewrite app_assoc. apply list_lookup_middle.
    by rewrite length_app, length_heads. }
  assert (H1 : round k !! S (at_block k) = Some we).
  { rewrite round_split. apply list_lookup_middle.
    rewrite !length_app, length_heads. simpl. lia. }
  destruct fuel as [|fuel]; [by apply (scan_no_fuel _ _ ws)|].
  rewrite (scan_step _ _ _ _ _ _ _ ws) by done.
  rewrite (scanLine_start _ _ _ sn _ ws _ cfg HS HE Hx). cbn [rbind cur].
  destruct fuel as [|fuel]; [by apply (scan_no_fuel _ _ we)|].
  rewrite (scan_step _ _ _ _ _ _ _ we) by done.
  unfold scanLine. rewrite HwS, HwE. cbn [rbind lookForStop andb].
  unfold spliceFile. cbn [config spliceStart cur]. rewrite Hflag.
  cbn [rbind].
  replace (S (S (at_block k)) - S (at_block k) - 1) with 0 by lia.
  rewrite round_splice.
  replace (S (S (at_block k))) with (at_block (S k)) by lia.
  apply IH. lia.
Qed.

(** The lines before the block are passed over, or the fuel ends
    there. *)
Lemma scan_before_never_ends fuel a b :
  pre = a ++ b ->
  scan C JSON_parse features fuel sn (length a)
       {| cur := round 0; lookForStop := false; spliceStart := 0;
          config := JUndefined |}
  = OutOfFuel.
Proof.
  revert fuel a. induction b as [|l b IH]; intros fuel a Hab.
  - rewrite app_nil_r in Hab. subst a.
    replace (length pre) with (at_block 0) by lia.
    apply scan_never_ends.
  - assert (Hl : inert C JSON_parse sn l).
    { rewrite Hab in Hpre. apply Forall_app in Hpre as [_ Hb].
      by inversion Hb. }
    assert (H0 : round 0 !! length a = Some l).
    { rewrite Hab, <- app_assoc. by apply list_lookup_middle. }
    destruct fuel as [|fuel]; [by apply (scan_no_fuel _ _ l)|].
    rewrite (scan_step _ _ _ _ _ _ _ l) by done.
    rewrite scanLine_quiet by (by split). cbn [rbind].
    specialize (IH fuel (a ++ [l])).
    rewrite length_app in IH. simpl in IH. rewrite Nat.add_1_r in IH.
    apply IH. by rewrite <- app_assoc.
Qed.
End Diverge.

(** X25: a snippet whose two captured lines are the marker lines of a
    block of its own name, spliced into a file where that block is
    empty (the write-end line comes directly after the write-start
    line) and no line before it is a write-start line that names the
    snippet or does not parse: with the source link off, no amount of
    fuel lets [getSplicedFile] return; each pass of the loop splices a
    new copy of the block under the index. *)
Theorem splice_of_quoted_block_never_returns
        (C : Common) (JSON_parse : string -> option JSValue)
        (features : JSValue) (sn : Snippet) (file : File)
        (ws we : string) (cfg flag : JSValue) (pre post : list string)
        (fuel : nat) :
  lines sn = [ws; we] ->
  flines file = pre ++ ws :: we :: post ->
  Forall (inert C JSON_parse sn) pre ->
  includes (writeStart C) ws = true ->
  includes (writeEnd C) ws = false ->
  extractWriteIDAndConfig C JSON_parse ws = Ok (id sn, cfg) ->
  includes (writeEnd C) we = true ->
  includes (writeStart C) we = false ->
  enable_source_link (js_or cfg features) = Ok flag ->
  truthy flag = false ->
  getSplicedFile C JSON_parse features fuel sn file = OutOfFuel.
Proof.
  intros Hl Hf Hpre HS HE Hx HwE HwS Hflag Hoff. unfold getSplicedFile.
  rewrite Hf.
  pose proof (scan_before_never_ends C JSON_parse features sn ws we cfg flag
                pre post Hl Hpre HS HE Hx HwE HwS Hflag Hoff fuel [] pre
                eq_refl) as H.
  simpl in H. by rewrite H.
Qed.

Lemma splice_of_quoted_block_never_returns_witness :
  getSplicedFile common JSON_parse_literals ex_features 1000
                 (ex_snippet "a" [ws_a; we_])
                 (ex_file (["intro"; ws_b; "other"; we_] ++ ws_a :: we_
                             :: ["outro"]))
  = OutOfFuel.
Proof.
  refine (splice_of_quoted_block_never_returns
            common JSON_parse_literals ex_features
            (ex_snippet "a" [ws_a; we_])
            (ex_file (["intro"; ws_b; "other"; we_] ++ ws_a :: we_
                        :: ["outro"]))
            ws_a we_ JUndefined (JBool false)
            ["intro"; ws_b; "other"; we_] ["outro"] 1000
            _ _ _ _ _ _ _ _ _ _);
    try reflexivity; solve_inert_all.
Defined.
(** ** The marker expressions, exactly *)

Section MatcherExact.
Context {A : Type}.

Lemma star_stops cls run rest (k : string -> string -> option A) taken r :
  all_chars cls run = true -> stops cls rest = true ->
  k (taken +:+ run) rest = Some r ->
  star cls taken (run +:+ rest) k = Some r.
Proof.
  revert taken. induction run as [|c run IH]; intros taken Hall Hstop Hk.
  - rewrite append_nil_r in Hk. simpl.
    destruct rest as [|c rest]; simpl; [done|].
    simpl in Hstop. by destruct (cls c).
  - simpl in Hall. apply andb_prop in Hall as [Hc Hall].
    simpl. rewrite Hc.
    rewrite (IH (taken +:+ String c EmptyString)); [done|done|done|].
    by rewrite append_assoc.
Qed.

Lemma star_none cls run rest (k : string -> string -> option A) taken :
  stops cls rest = true ->
  (forall p q, run = p +:+ q -> k (taken +:+ p) (q +:+ rest) = None) ->
  star cls taken (run +:+ rest) k = None.
Proof.
  revert taken. induction run as [|c run IH]; intros taken Hstop Hk.
  - specialize (Hk EmptyString EmptyString eq_refl).
    rewrite append_nil_r in Hk. simpl in *.
    destruct rest as [|c rest]; simpl; [done|].
    simpl in Hstop. by destruct (cls c).
  - simpl. rewrite IH; [|done|].
    + pose proof (Hk EmptyString (String c run) eq_refl) as H0.
      rewrite append_nil_r in H0. simpl in H0. rewrite H0.
      by destruct (cls c).
    + intros p q ->. rewrite append_assoc.
      apply (Hk (String c p) q). done.
Qed.

Lemma star_backtrack cls run1 run2 rest
      (k : string -> string -> option A) taken r :
  all_chars cls run1 = true -> stops cls rest = true ->
  k (taken +:+ run1) (run2 +:+ rest) = Some r ->
  (forall p q, run2 = p +:+ q -> p <> EmptyString ->
               k (taken +:+ run1 +:+ p) (q +:+ rest) = None) ->
  star cls taken (run1 +:+ run2 +:+ rest) k = Some r.
Proof.
  revert taken. induction run1 as [|c run1 IH]; intros taken Hall Hstop Hk Hno.
  - rewrite append_nil_r in Hk. simpl "+:+" in *.
    destruct run2 as [|c run2].
    + simpl. destruct rest as [|c rest]; simpl; [done|].
      simpl in Hstop. by destruct (cls c).
    + simpl. rewrite star_none; [|done|].
      * simpl in Hk. rewrite Hk. by destruct (cls c).
      * intros p q ->. rewrite append_assoc.
        apply (Hno (String c p) q); done.
  - simpl in Hall. apply andb_prop in Hall as [Hc Hall].
    simpl. rewrite Hc.
    rewrite (IH (taken +:+ String c EmptyString)); try done.
    + by rewrite append_assoc.
    + intros p q Hq Hp. rewrite append_assoc. by apply Hno.
Qed.

Lemma star_at_stop cls s (k : string -> string -> option A) taken :
  stops cls s = true -> star cls taken s k = k taken s.
Proof.
  destruct s as [|c s]; simpl; [done|].
  rewrite negb_true_iff. by intros ->.
Qed.

Lemma plus_at_stop cls s (k : string -> string -> option A) :
  stops cls s = true -> plus cls s k = None.
Proof. intros H. unfold plus. by rewrite star_at_stop. Qed.

Lemma nonempty_guard (t : string) (x : option A) :
  t <> EmptyString ->
  match t with EmptyString => None | String _ _ => x end = x.
Proof. by destruct t. Qed.

Lemma plus_stops cls run rest (k : string -> string -> option A) r :
  all_chars cls run = true -> run <> EmptyString ->
  stops cls rest = true ->
  k run rest = Some r ->
  plus cls (run +:+ rest) k = Some r.
Proof.
  intros Hall Hne Hstop Hk. unfold plus.
  apply star_stops; [done|done|]. cbn beta.
  change (EmptyString +:+ run) with run. by rewrite nonempty_guard.
Qed.

Lemma plus_backtrack cls run1 run2 rest
      (k : string -> string -> option A) r :
  all_chars cls run1 = true -> run1 <> EmptyString ->
  stops cls rest = true ->
  k run1 (run2 +:+ rest) = Some r ->
  (forall p q, run2 = p +:+ q -> p <> EmptyString ->
               k (run1 +:+ p) (q +:+ rest) = None) ->
  plus cls (run1 +:+ run2 +:+ rest) k = Some r.
Proof.
  intros Hall Hne Hstop Hk Hno. unfold plus.
  apply star_backtrack; [done|done| |].
  - cbn beta. change (EmptyString +:+ run1) with run1.
    by rewrite nonempty_guard.
  - intros p q Hq Hp. cbn beta.
    change (EmptyString +:+ run1 +:+ p) with (run1 +:+ p).
    rewrite nonempty_guard by (by destruct run1). by apply Hno.
Qed.

Lemma plus_backtrack_end cls run1 run2
      (k : string -> string -> option A) r :
  all_chars cls run1 = true -> run1 <> EmptyString ->
  k run1 run2 = Some r ->
  (forall p q, run2 = p +:+ q -> p <> EmptyString ->
               k (run1 +:+ p) q = None) ->
  plus cls (run1 +:+ run2) k = Some r.
Proof.
  intros Hall Hne Hk Hno.
  rewrite <- (append_nil_r run2).
  apply plus_backtrack; [done|done|done| |].
  - by rewrite append_nil_r.
  - intros p q Hq Hp. rewrite append_nil_r. by apply Hno.
Qed.

Lemma leftmost_first tok (after : string -> option A) pre s r :
  indexOf tok (pre +:+ tok +:+ s) = Some (String.length pre) ->
  after s = Some r ->
  leftmost tok after (pre +:+ tok +:+ s) = Some r.
Proof.
  intros Hidx Hs. induction pre as [|c pre IH].
  - change (EmptyString +:+ tok +:+ s) with (tok +:+ s).
    by rewrite leftmost_eq, startsWith_app, substring_after, Hs.
  - change (String c pre +:+ tok +:+ s) with (String c (pre +:+ tok +:+ s))
      in *.
    rewrite leftmost_eq. simpl in Hidx.
    destruct (startsWith tok (String c (pre +:+ tok +:+ s))); [done|].
    apply IH.
    destruct (indexOf tok (pre +:+ tok +:+ s)) as [n|]; [|done].
    simpl in Hidx. by injection Hidx as ->.
Qed.
End MatcherExact.

Lemma startsWith_short tok s :
  String.length s < String.length tok -> startsWith tok s = false.
Proof.
  revert s. induction tok as [|c tok IH]; intros s Hlen; simpl in *; [lia|].
  destruct s as [|d s]; [done|]. simpl in Hlen.
  rewrite IH by lia. apply andb_false_r.
Qed.

Lemma length_append a b :
  String.length (a +:+ b) = String.length a + String.length b.
Proof. induction a as [|c a IH]; simpl; [done|]. by rewrite IH. Qed.

Lemma stops_all cls s :
  all_chars (fun c => negb (cls c)) s = true -> stops cls s = true.
Proof. destruct s as [|c s]; simpl; [done|]. by intros [? _]%andb_prop. Qed.
(** X5: on a line whose first read-start token is followed by white space
    and then a token that ends at white space or at the end of the
    line, [extractReadID] returns exactly that token; what follows it
    on the line is ignored. *)
Theorem extractReadID_exact (C : Common) (line pre sp ident rest : string) :
  line = pre +:+ readStart C +:+ sp +:+ ident +:+ rest ->
  indexOf (readStart C) line = Some (String.length pre) ->
  all_chars is_space sp = true -> sp <> EmptyString ->
  all_chars non_space ident = true -> ident <> EmptyString ->
  stops non_space rest = true ->
  extractReadID C line = Ok ident.
Proof.
  intros -> Hidx Hsp Hsp' Hid Hid' Hrest.
  unfold extractReadID, readMatch.
  rewrite (leftmost_first _ _ pre _ ident); [done|done|].
  apply plus_stops; [done|done| |].
  - destruct ident as [|c ident]; [done|]. simpl in *.
    by apply andb_prop in Hid as [? _].
  - by apply plus_stops.
Qed.

Section WriteExact.
Variable C : Common.
Abbreviation CLOSE := (writeStartClose C).
Hypothesis Hclose : all_chars non_space CLOSE = true.
Hypothesis Hclose' : CLOSE <> EmptyString.

Lemma close_stops_space : stops is_space CLOSE = true.
Proof.
  destruct CLOSE as [|c s]; [done|]. simpl in *.
  by apply andb_prop in Hclose as [Hc _].
Qed.

Lemma close_suffix p q :
  CLOSE = p +:+ q -> p <> EmptyString ->
  stops is_space q = true /\ startsWith CLOSE q = false.
Proof.
  intros Hpq Hp. split.
  - assert (Hq : all_chars non_space q = true).
    { rewrite Hpq, all_chars_app in Hclose.
      by apply andb_prop in Hclose as [_ ?]. }
    destruct q as [|c q]; [done|]. simpl in *.
    by apply andb_prop in Hq as [? _].
  - apply startsWith_short.
    assert (Hl : String.length CLOSE = String.length p + String.length q)
      by (by rewrite Hpq, length_append).
    destruct p; [done|]. simpl in Hl. lia.
Qed.

Lemma ident_stops_space ident :
  all_chars non_space ident = true -> ident <> EmptyString ->
  forall s, stops is_space (ident +:+ s) = true.
Proof.
  intros Hid Hne s. destruct ident as [|c ident]; [done|]. simpl in *.
  by apply andb_prop in Hid as [? _].
Qed.

Lemma close_here (r : string * option string) :
  star is_space EmptyString CLOSE
       (fun _ s => if startsWith CLOSE s then Some r else None) = Some r.
Proof.
  rewrite star_at_stop by apply close_stops_space.
  replace CLOSE with (CLOSE +:+ EmptyString) at 2 by apply append_nil_r.
  by rewrite startsWith_app.
Qed.

Lemma close_not_here (r : string * option string) p q :
  CLOSE = p +:+ q -> p <> EmptyString ->
  star is_space EmptyString q
       (fun _ s => if startsWith CLOSE s then Some r else None) = None.
Proof.
  intros Hpq Hp. destruct (close_suffix p q Hpq Hp) as [Hstop Hshort].
  rewrite star_at_stop by done. by rewrite Hshort.
Qed.

Lemma writeMatch_plain pre sp ident :
  indexOf (writeStart C) (pre +:+ writeStart C +:+ sp +:+ ident +:+ CLOSE)
    = Some (String.length pre) ->
  all_chars is_space sp = true -> sp <> EmptyString ->
  all_chars non_space ident = true -> ident <> EmptyString ->
  writeMatch C (pre +:+ writeStart C +:+ sp +:+ ident +:+ CLOSE)
  = Some (ident, None).
Proof.
  intros Hidx Hsp Hsp' Hid Hid'. unfold writeMatch.
  rewrite (leftmost_first _ _ pre _ (ident, None)); [done|done|].
  apply plus_stops; [done|done|by apply ident_stops_space|].
  apply plus_backtrack_end; [done|done| |].
  - rewrite plus_at_stop by apply close_stops_space. apply close_here.
  - intros p q Hpq Hp.
    destruct (close_suffix p q Hpq Hp) as [Hstop _].
    rewrite plus_at_stop by done. by apply (close_not_here _ p q).
Qed.

Lemma writeMatch_payload pre sp ident sp2 payload :
  indexOf (writeStart C)
          (pre +:+ writeStart C +:+ sp +:+ ident +:+ sp2 +:+ payload
             +:+ CLOSE)
    = Some (String.length pre) ->
  all_chars is_space sp = true -> sp <> EmptyString ->
  all_chars non_space ident = true -> ident <> EmptyString ->
  all_chars is_space sp2 = true -> sp2 <> EmptyString ->
  all_chars is_dot payload = true -> stops is_space payload = true ->
  payload <> EmptyString ->
  writeMatch C (pre +:+ writeStart C +:+ sp +:+ ident +:+ sp2 +:+ payload
                  +:+ CLOSE)
  = Some (ident, Some payload).
Proof.
  intros Hidx Hsp Hsp' Hid Hid' Hsp2 Hsp2' Hpay Hpay0 Hpay'.
  unfold writeMatch.
  rewrite (leftmost_first _ _ pre _ (ident, Some payload)); [done|done|].
  apply plus_stops; [done|done|by apply ident_stops_space|].
  apply plus_stops; [done|done| |].
  { destruct sp2 as [|d sp2']; [done|]. simpl in *.
    apply andb_prop in Hsp2 as [Hd _]. unfold non_space. by rewrite Hd. }
  assert (Hg : plus is_space (sp2 +:+ payload +:+ CLOSE)
            (fun _ s3 => plus is_dot s3 (fun payload0 s4 =>
               star is_space EmptyString s4
                 (fun _ s => if startsWith CLOSE s
                             then Some (ident, Some payload0)
                             else None)))
          = Some (ident, Some payload)); [|by rewrite Hg].
  apply plus_stops; [done|done| |].
  { destruct payload as [|d p']; [done|]. exact Hpay0. }
  apply plus_backtrack_end; [done|done| |].
  - apply close_here.
  - intros p q Hpq Hp. by apply (close_not_here _ p q).
Qed.
End WriteExact.

(** X6: on a line that ends with the closing token, and whose first
    write-start token is followed by white space and an identifier
    directly before the closing token, [extractWriteIDAndConfig]
    returns exactly that identifier and no configuration, without
    calling the parser. *)
Theorem extractWrite_plain_exact
        (C : Common) (JSON_parse : string -> option JSValue)
        (line pre sp ident : string) :
  all_chars non_space (writeStartClose C) = true ->
  writeStartClose C <> EmptyString ->
  line = pre +:+ writeStart C +:+ sp +:+ ident +:+ writeStartClose C ->
  indexOf (writeStart C) line = Some (String.length pre) ->
  all_chars is_space sp = true -> sp <> EmptyString ->
  all_chars non_space ident = true -> ident <> EmptyString ->
  extractWriteIDAndConfig C JSON_parse line = Ok (ident, JUndefined).
Proof.
  intros Hc Hc' -> Hidx Hsp Hsp' Hid Hid'. unfold extractWriteIDAndConfig.
  by rewrite (writeMatch_plain C Hc Hc' pre sp ident).
Qed.

Lemma extractWrite_plain_exact_witness :
  extractWriteIDAndConfig common JSON_parse_literals
                          "  <!--SNIPSTART money-transfer-go-->"
  = Ok ("money-transfer-go", JUndefined).
Proof.
  refine (extractWrite_plain_exact common JSON_parse_literals
            "  <!--SNIPSTART money-transfer-go-->" "  " " "
            "money-transfer-go" _ _ _ _ _ _ _ _);
    try reflexivity; discriminate.
Defined.

(** X7: on a line that ends with the closing token, and whose first
    write-start token is followed by white space, an identifier, white
    space and a payload, the payload handed to the parser is everything
    between that white space and the closing token, trailing white
    space included; the result is the identifier with the parsed value,
    or the parser's exception. *)
Theorem extractWrite_payload_exact
        (C : Common) (JSON_parse : string -> option JSValue)
        (line pre sp ident sp2 payload : string) :
  all_chars non_space (writeStartClose C) = true ->
  writeStartClose C <> EmptyString ->
  line = pre +:+ writeStart C +:+ sp +:+ ident +:+ sp2 +:+ payload
           +:+ writeStartClose C ->
  indexOf (writeStart C) line = Some (String.length pre) ->
  all_chars is_space sp = true -> sp <> EmptyString ->
  all_chars non_space ident = true -> ident <> EmptyString ->
  all_chars is_space sp2 = true -> sp2 <> EmptyString ->
  all_chars is_dot payload = true -> stops is_space payload = true ->
  payload <> EmptyString ->
  extractWriteIDAndConfig C JSON_parse line
  = match JSON_parse payload with
    | Some v => Ok (ident, v)
    | None => Throw (SyntaxError payload)
    end.
Proof.
  intros Hc Hc' -> Hidx Hsp Hsp' Hid Hid' Hsp2 Hsp2' Hp Hp0 Hp'.
  unfold extractWriteIDAndConfig.
  by rewrite (writeMatch_payload C Hc Hc' pre sp ident sp2 payload).
Qed.

Lemma extractWrite_payload_exact_witness :
  extractWriteIDAndConfig common JSON_parse_small "<!--SNIPSTART a  {} -->"
  = match JSON_parse_small "{} " with
    | Some v => Ok ("a", v)
    | None => Throw (SyntaxError "{} ")
    end.
Proof.
  refine (extractWrite_payload_exact common JSON_parse_small
            "<!--SNIPSTART a  {} -->" EmptyString " " "a" "  " "{} "
            _ _ _ _ _ _ _ _ _ _ _ _ _);
    try reflexivity; discriminate.
Defined.

Lemma extractReadID_exact_witness :
  extractReadID common "// @@@SNIPSTART hello-world  (see docs)"
  = Ok "hello-world".
Proof.
  refine (extractReadID_exact common
            "// @@@SNIPSTART hello-world  (see docs)" "// " " "
            "hello-world" "  (see docs)" _ _ _ _ _ _ _);
    try reflexivity; discriminate.
Defined.
(** ** Escaping the marker tokens *)

Lemma syntax_char_not_hyphen c :
  is_syntax_char c = true -> Ascii.eqb c "-" = false /\ Ascii.eqb c "x" = false.
Proof.
  intros H. split.
  - destruct (Ascii.eqb c "-") eqn:E; [|done].
    apply Ascii.eqb_eq in E as ->. discriminate H.
  - destruct (Ascii.eqb c "x") eqn:E; [|done].
    apply Ascii.eqb_eq in E as ->. discriminate H.
Qed.

Lemma not_syntax_not_backslash c :
  is_syntax_char c = false -> Ascii.eqb c "\" = false.
Proof.
  intros H. destruct (Ascii.eqb c "\") eqn:E; [|done].
  apply Ascii.eqb_eq in E as ->. discriminate H.
Qed.

Lemma literal_escaped d r :
  is_syntax_char d = true ->
  literal_of_pattern (String "\" (String d r))
  = option_map (String d) (literal_of_pattern r).
Proof.
  intros Hd. destruct (syntax_char_not_hyphen d Hd) as [_ Hx].
  cbn [literal_of_pattern]. rewrite Ascii.eqb_refl, Hx, Hd. done.
Qed.

Lemma literal_hex_hyphen r :
  literal_of_pattern ("\x2d" +:+ r)
  = option_map (String "-") (literal_of_pattern r).
Proof. reflexivity. Qed.

Lemma literal_plain c r :
  is_syntax_char c = false ->
  literal_of_pattern (String c r)
  = option_map (String c) (literal_of_pattern r).
Proof.
  intros Hc. cbn [literal_of_pattern].
  by rewrite (not_syntax_not_backslash c Hc), Hc.
Qed.

Lemma includes_char_cons c d s :
  includes (String c EmptyString) (String d s)
  = Ascii.eqb c d || includes (String c EmptyString) s.
Proof. cbn [includes startsWith]. by rewrite andb_true_r. Qed.

(** X8: the pattern that [escapeStringRegexp] builds from a token is read
    by [RegExp] as that very token, whatever characters the token
    holds; and the pattern holds no hyphen. *)
Theorem escapeStringRegexp_literal (s : string) :
  literal_of_pattern (escapeStringRegexp s) = Some s
  /\ includes "-" (escapeStringRegexp s) = false.
Proof.
  unfold escapeStringRegexp. induction s as [|c s [IH1 IH2]]; [done|].
  cbn [escape_syntax]. destruct (is_syntax_char c) eqn:Hc.
  - destruct (syntax_char_not_hyphen c Hc) as [Hh Hx].
    cbn [escape_hyphen]. rewrite Hh.
    change (Ascii.eqb "\" "-") with false. cbn iota.
    split.
    + by rewrite literal_escaped, IH1.
    + rewrite !includes_char_cons, IH2, (Ascii.eqb_sym "-" c), Hh. done.
  - cbn [escape_hyphen]. destruct (Ascii.eqb c "-") eqn:Hh.
    + apply Ascii.eqb_eq in Hh as ->. split.
      * by rewrite literal_hex_hyphen, IH1.
      * change ("\x2d" +:+ ?r) with
          (String "\" (String "x" (String "2" (String "d" r)))).
        rewrite !includes_char_cons, IH2. done.
    + split.
      * by rewrite literal_plain, IH1.
      * rewrite includes_char_cons, IH2, (Ascii.eqb_sym "-" c), Hh. done.
Qed.
(** ** Lines that the scan steps over *)

(** X24: when the rendering is shorter than the interior it replaces, the
    lines that follow the write-end line, as many as the block lost,
    are never looked at: whatever they hold (a block that names the
    snippet, a malformed write-start line) they come out as they
    were, and the scan does not throw on them. *)
Theorem splice_skips_after_shrink
        (C : Common) (JSON_parse : string -> option JSValue)
        (features : JSValue) (fuel : nat) (sn : Snippet) (file : File)
        (pre interior skipped post : list string) (ws we : string)
        (cfg flag : JSValue) :
  flines file = pre ++ ws :: interior ++ we :: skipped ++ post ->
  Forall (inert C JSON_parse sn) pre ->
  includes (writeStart C) ws = true ->
  includes (writeEnd C) ws = false ->
  extractWriteIDAndConfig C JSON_parse ws = Ok (id sn, cfg) ->
  Forall (fun l => inert C JSON_parse sn l
                   /\ includes (writeEnd C) l = false) interior ->
  includes (writeEnd C) we = true ->
  inert C JSON_parse sn we ->
  Forall (inert C JSON_parse sn) post ->
  enable_source_link (js_or cfg features) = Ok flag ->
  length (fst (fmt C sn flag)) + length skipped <= length interior ->
  length pre + length interior + length post + 2 <= fuel ->
  getSplicedFile C JSON_parse features fuel sn file
  = Ok (set_lines file
          (pre ++ ws :: fst (fmt C sn flag) ++ we :: skipped ++ post)).
Proof.
  intros Hf Hpre HS HE Hx Hint HwE Hwe Hpost Hflag Hlen Hfuel.
  set (r := fst (fmt C sn flag)) in *.
  unfold getSplicedFile.
  replace fuel with (S (fuel - length pre - length interior - 2)
                     + S (length interior) + length pre) by lia.
  rewrite (scan_to_stop C JSON_parse features _ sn file pre ws interior we
             (skipped ++ post) cfg) by done.
  rewrite (scanLine_stop C JSON_parse features sn _ we
             {| cur := flines file; lookForStop := true;
                spliceStart := S (length pre); config := cfg |}
             flag Hwe HwE eq_refl Hflag).
  cbn [rbind cur spliceStart config]. fold r.
  replace (S (length pre + S (length interior)) - S (length pre) - 1)
    with (length interior) by lia.
  rewrite Hf, splice_block.
  rewrite scan_tail_drop; [done|done| |].
  - cbn [cur].
    replace (pre ++ ws :: r ++ we :: skipped ++ post)
      with ((pre ++ ws :: r ++ we :: skipped) ++ post)
      by (rewrite <- !app_assoc; simpl; by rewrite <- !app_assoc).
    replace (S (length pre + S (length interior)))
      with (length (pre ++ ws :: r ++ we :: skipped)
            + (length interior - length r - length skipped)).
    + rewrite drop_app_add. by apply Forall_drop.
    + rewrite !length_app. simpl. rewrite !length_app. simpl. lia.
  - cbn [cur]. rewrite !length_app. simpl. rewrite !length_app. simpl.
    rewrite !length_app. lia.
Qed.

Lemma splice_skips_after_shrink_witness :
  getSplicedFile common JSON_parse_literals ex_features 20
                 (ex_snippet "a" [])
                 (ex_file ([] ++ ws_a :: ["o1"; "o2"; "o3"] ++ we_
                              :: ["<!--SNIPSTART"] ++ ["tail"]))
  = Ok (set_lines
          (ex_file ([] ++ ws_a :: ["o1"; "o2"; "o3"] ++ we_
                       :: ["<!--SNIPSTART"] ++ ["tail"]))
          ([] ++ ws_a :: fst (fmt common (ex_snippet "a" []) (JBool false))
              ++ we_ :: ["<!--SNIPSTART"] ++ ["tail"])).
Proof.
  refine (splice_skips_after_shrink
            common JSON_parse_literals ex_features 20 (ex_snippet "a" [])
            (ex_file ([] ++ ws_a :: ["o1"; "o2"; "o3"] ++ we_
                         :: ["<!--SNIPSTART"] ++ ["tail"]))
            [] ["o1"; "o2"; "o3"] ["<!--SNIPSTART"] ["tail"] ws_a we_
            JUndefined (JBool false) _ _ _ _ _ _ _ _ _ _ _ _);
    try reflexivity; try solve_inert; try solve_inert_all; simpl; lia.
Defined.

(** ** Witnesses for the one-block and well-formed-file lemmas *)



Lemma extract_regions_witness :
  extractFileSnippets common "temporalio" "samples-go" None ex_path
    (concat (map region_lines [ex_region; ex_region]) ++ ["end of file"])
  = Ok (map (fun r => with_lines
                        (newSnippet "temporalio" "samples-go" None ex_path
                                    (rid r)) (body r))
            [ex_region; ex_region]).
Proof.
  refine (extract_regions common "temporalio" "samples-go" None ex_path
            [ex_region; ex_region] ["end of file"] _ _).
  - repeat (apply List.Forall_cons; [exact ex_region_ok|]).
    apply List.Forall_nil.
  - solve_plain_all.
Defined.
(** ** The files a splice returns *)

Lemma getSplicedFile_same_file C JSON_parse features fuel sn file file' :
  getSplicedFile C JSON_parse features fuel sn file = Ok file' ->
  same_file file file'.
Proof.
  unfold getSplicedFile.
  destruct (scan _ _ _ _ _ _ _) as [ls| |]; cbn [rbind]; try done.
  by intros [= <-].
Qed.

Lemma spliceFiles_same_file C JSON_parse features fuel sn files files' :
  spliceFiles C JSON_parse features fuel sn files = Ok files' ->
  Forall2 same_file files files'.
Proof.
  revert files'. induction files as [|f files IH]; intros files'.
  - simpl. intros [= <-]. constructor.
  - cbn [spliceFiles].
    destruct (getSplicedFile _ _ _ _ _ f) as [f1| |] eqn:Hf;
      cbn [rbind]; try done.
    destruct (spliceFiles _ _ _ _ _ files) as [fs1| |] eqn:Hfs;
      cbn [rbind]; try done.
    intros [= <-]. constructor; [|by apply IH].
    by eapply getSplicedFile_same_file.
Qed.

(** X18: whatever the snippets and the files, a splice that returns gives
    back as many files as it was given, in the same order, each with
    the name and the path it had: only bodies change. *)
Theorem splice_keeps_files
        (C : Common) (JSON_parse : string -> option JSValue)
        (features : JSValue) (fuel : nat)
        (snippets : list Snippet) (files files' : list File) :
  spliceSnippets C JSON_parse features fuel snippets files = Ok files' ->
  Forall2 same_file files files' /\ length files' = length files.
Proof.
  intros H.
  assert (HF : Forall2 same_file files files').
  { revert files H. induction snippets as [|sn snippets IH]; intros files.
    - simpl. intros [= <-]. apply Forall_Forall2_diag, Forall_forall.
      by intros f _.
    - cbn [spliceSnippets].
      destruct (spliceFiles _ _ _ _ sn files) as [fs1| |] eqn:Hfs;
        cbn [rbind]; try done.
      intros Hrest. eapply Forall2_trans;
        [|by eapply spliceFiles_same_file|by apply IH].
      intros f g h [? ?] [? ?]. split; congruence. }
  split; [done|]. symmetry. by eapply Forall2_length.
Qed.

Lemma splice_keeps_files_witness :
  Forall2 same_file
          [ex_file ["intro"; ws_a; "old"; we_; "outro"]]
          [ex_file ["intro"; ws_a; "```go"; "x := 1"; "```"; we_; "outro"]]
  /\ length [ex_file ["intro"; ws_a; "```go"; "x := 1"; "```"; we_; "outro"]]
     = length [ex_file ["intro"; ws_a; "old"; we_; "outro"]].
Proof.
  apply (splice_keeps_files common JSON_parse_literals ex_features 20
           [ex_snippet "a" ["x := 1"]]).
  vm_compute. reflexivity.
Defined.

(** ** From a source file to a target file *)


